(** * cancan: the ability registry and the decision engine of [src/index.js]

    A shallow embedding of the JavaScript module.  JavaScript values are
    first-order data ([val]); objects live in a heap and are named by
    references, so that [===] on objects is reference identity and an
    allocation ([{}], a closure) yields a reference that did not exist
    before.  Functions supplied by the embedding program (conditions,
    getters) are function objects in the heap whose behaviour is given by the
    [host]; they may read the heap, return or throw, and may return a promise,
    whose eventual settlement is also given by the [host].

    What the model leaves out: functions of the program do not write to the
    heap (the engine takes conditions to be free of side effects); numbers are
    the integers and [NaN]; accessor properties, proxies, symbols and thenables
    that are not promises do not occur; [autoBind] is not needed, as every
    method takes the machine state explicitly. *)

From Stdlib Require Import String List ZArith Bool Arith Lia Permutation.
Import ListNotations.
Open Scope string_scope.
Open Scope list_scope.

(** ** JavaScript values, objects and the heap *)

Definition loc := nat.
Definition pid := nat.
Definition fid := nat.

Inductive val : Type :=
| VUndefined
| VNull
| VBool (b : bool)
| VNumber (n : Z)          (* an integral number; [-0] is not distinguished *)
| VNaN
| VString (s : string)
| VRef (l : loc)           (* an object, array or function in the heap *)
| VPromise (p : pid).      (* a promise; the host knows how it settles *)

(** What a [throw] carries: an error object made by the runtime or by this
    module (given by constructor name and message), or any value thrown by
    the embedding program. *)
Inductive error : Type :=
| NativeError (name message : string)
| Thrown (v : val).

Inductive result (A : Type) : Type :=
| Ok (a : A)
| Throw (e : error).
Arguments Ok {A} a.
Arguments Throw {A} e.

(** How a promise ends. *)
Inductive settled (A : Type) : Type :=
| Fulfilled (a : A)
| Rejected (e : error)
| Pending.                 (* never settles *)
Arguments Fulfilled {A} a.
Arguments Rejected {A} e.
Arguments Pending {A}.

(** A function object is either a function of the embedding program or the
    arrow function that [getConditionFn] returns, closed over [condition]. *)
Inductive closure : Type :=
| UserFn (f : fid)
| ConditionFn (condition : val).

Inductive kind : Type :=
| KOrdinary
| KArray (elems : list val)
| KFunction (c : closure).

(** [o_protos] is the prototype chain, nearest first, as far as it consists of
    objects of the embedding program; the built-in prototypes that end every
    chain are answered for by the host.  [o_props] are the own string-keyed
    properties in [Object.keys] order; all are taken to be enumerable
    ([Object.keys] is only ever applied to an attribute map). *)
Record object : Type := {
  o_kind : kind;
  o_protos : list loc;
  o_props : list (string * val)
}.

Definition heap := list object.

Definition empty_object : object :=
  {| o_kind := KOrdinary; o_protos := []; o_props := [] |}.

Module Ability.
(** The object literal [{model, action, target, condition}]. *)
Record t : Type := {
  model : val;
  action : val;
  target : val;
  condition : val
}.
End Ability.
Abbreviation ability := Ability.t.

(** The [this] of a call: [ability.condition(...)] is a method call on the
    ability, [obj.get(key)] a method call on [obj]. *)
Inductive receiver : Type :=
| OnValue (v : val)
| OnAbility (a : ability).

(** The embedding program and the runtime around the module. *)
Record host : Type := {
  (* the body of each user function: reads the heap, returns or throws *)
  user_code : fid -> heap -> receiver -> list val -> result val;
  (* a property found on no object of the program: built-in prototypes,
     wrapper objects of primitives, array indices *)
  host_prop : heap -> val -> string -> val;
  (* how each promise ends, and when, in event-loop order *)
  fate : pid -> settled val;
  settles_at : pid -> nat
}.

Module JS.

Definition strict_eq (a b : val) : bool :=
  match a, b with
  | VUndefined, VUndefined => true
  | VNull, VNull => true
  | VBool x, VBool y => Bool.eqb x y
  | VNumber x, VNumber y => Z.eqb x y
  | VString x, VString y => String.eqb x y
  | VRef x, VRef y => Nat.eqb x y
  | VPromise x, VPromise y => Nat.eqb x y
  | _, _ => false
  end.

(** ToBoolean. *)
Definition truthy (v : val) : bool :=
  match v with
  | VUndefined | VNull | VNaN => false
  | VBool b => b
  | VNumber n => negb (Z.eqb n 0)
  | VString s => negb (String.eqb s "")
  | VRef _ | VPromise _ => true
  end.

Definition closure_of (h : heap) (v : val) : option closure :=
  match v with
  | VRef l =>
      match nth_error h l with
      | Some o => match o_kind o with KFunction c => Some c | _ => None end
      | None => None
      end
  | _ => None
  end.

Definition typeof (h : heap) (v : val) : string :=
  match v with
  | VUndefined => "undefined"
  | VNull => "object"
  | VBool _ => "boolean"
  | VNumber _ | VNaN => "number"
  | VString _ => "string"
  | VRef _ => match closure_of h v with Some _ => "function" | None => "object" end
  | VPromise _ => "object"
  end.

Fixpoint assoc (k : string) (ps : list (string * val)) : option val :=
  match ps with
  | [] => None
  | (k', v) :: ps' => if String.eqb k k' then Some v else assoc k ps'
  end.

Definition own_prop (h : heap) (l : loc) (k : string) : option val :=
  match nth_error h l with
  | Some o => assoc k (o_props o)
  | None => None
  end.

Fixpoint chain_prop (h : heap) (chain : list loc) (k : string) : option val :=
  match chain with
  | [] => None
  | p :: chain' =>
      match own_prop h p k with
      | Some v => Some v
      | None => chain_prop h chain' k
      end
  end.

Definition cannot_read : error :=
  NativeError "TypeError" "Cannot read properties of undefined or null".

(** [v[k]] and [v.k]. *)
Definition read_prop (H : host) (h : heap) (v : val) (k : string) : result val :=
  match v with
  | VUndefined | VNull => Throw cannot_read
  | VRef l =>
      match nth_error h l with
      | Some o =>
          match assoc k (o_props o) with
          | Some x => Ok x
          | None =>
              match chain_prop h (o_protos o) k with
              | Some x => Ok x
              | None => Ok (host_prop H h v k)
              end
          end
      | None => Ok VUndefined
      end
  | _ => Ok (host_prop H h v k)
  end.

(** [Object.keys(v)]. *)
Definition object_keys (h : heap) (v : val) : result (list string) :=
  match v with
  | VUndefined | VNull =>
      Throw (NativeError "TypeError" "Cannot convert undefined or null to object")
  | VRef l =>
      match nth_error h l with
      | Some o => Ok (map fst (o_props o))
      | None => Ok []
      end
  | _ => Ok []
  end.

Definition not_callable : error :=
  NativeError "TypeError" "Right-hand side of 'instanceof' is not callable".
Definition bad_prototype : error :=
  NativeError "TypeError" "Function has non-object prototype in instanceof check".

(** [instance instanceof model], for constructors of the program. *)
Definition instanceof (H : host) (h : heap) (instance model : val) : result val :=
  match closure_of h model with
  | None => Throw not_callable
  | Some _ =>
      match instance with
      | VRef l =>
          match read_prop H h model "prototype" with
          | Throw e => Throw e
          | Ok (VRef p) =>
              match nth_error h l with
              | Some o => Ok (VBool (existsb (Nat.eqb p) (o_protos o)))
              | None => Ok (VBool false)
              end
          | Ok (VPromise _) => Ok (VBool false)
          | Ok _ => Throw bad_prototype
          end
      | VPromise _ =>
          match read_prop H h model "prototype" with
          | Throw e => Throw e
          | Ok (VRef _) | Ok (VPromise _) => Ok (VBool false)
          | Ok _ => Throw bad_prototype
          end
      | _ => Ok (VBool false)
      end
  end.

(** [await v]: the settlement seen by the awaiting function and its place
    in the event-loop order (a value that is not a promise is there at
    once). *)
Definition await (H : host) (v : val) : settled val * nat :=
  match v with
  | VPromise p => (fate H p, S (settles_at H p))
  | _ => (Fulfilled v, 0)
  end.

End JS.
Import JS.

(** ** The npm dependencies of [src/index.js] *)

Module Deps.

(** [is-plain-obj], as published: the tag of the value is [[object Object]]
    and its prototype is [Object.prototype] or [null]. *)
Definition isObject (h : heap) (v : val) : bool :=
  match v with
  | VRef l =>
      match nth_error h l with
      | Some o =>
          match o_kind o, o_protos o with
          | KOrdinary, [] => true
          | _, _ => false
          end
      | None => false
      end
  | _ => false
  end.

(** [Array.isArray(v)], with the elements when it is one. *)
Definition array_elements (h : heap) (v : val) : option (list val) :=
  match v with
  | VRef l =>
      match nth_error h l with
      | Some o => match o_kind o with KArray elems => Some elems | _ => None end
      | None => None
      end
  | _ => None
  end.

(** [arrify], as published: [null] and [undefined] give [[]], an array is
    used as it is, any other value [v] gives [[v]]. *)
Definition arrify (h : heap) (v : val) : list val :=
  match v with
  | VUndefined | VNull => []
  | _ =>
      match array_elements h v with
      | Some elems => elems
      | None => [v]
      end
  end.

End Deps.
Import Deps.

(** ** Machine state and the monad of synchronous code *)

(** One condition invocation, as recorded in [st_calls]. *)
Record call_event : Type := {
  callee : val;
  args : list val
}.

(** An instance of [class CanCan]: the fields set by the constructor.  The
    two configured functions are functions of the embedding program, taken
    here directly as their behaviour on a heap. *)
Record CanCan : Type := {
  abilities : list ability;
  instanceOf : heap -> val -> val -> result val;
  createError : heap -> list val -> result error
}.

(** [st_calls] is instrumentation: the condition invocations made so far,
    oldest first.  No definition below reads it. *)
Record state : Type := {
  st_heap : heap;
  self : CanCan;
  st_calls : list call_event
}.

Definition M (A : Type) : Type := state -> result A * state.

Definition ret {A : Type} (a : A) : M A := fun s => (Ok a, s).

Definition throw {A : Type} (e : error) : M A := fun s => (Throw e, s).

Definition bind {A B : Type} (m : M A) (k : A -> M B) : M B :=
  fun s =>
    match m s with
    | (Ok a, s') => k a s'
    | (Throw e, s') => (Throw e, s')
    end.

Declare Scope js_scope.
Delimit Scope js_scope with js.
Notation "x <- m ;; k" := (bind m (fun x => k))
  (at level 100, m at next level, right associativity) : js_scope.
Notation "m ;;; k" := (bind m (fun _ => k))
  (at level 100, right associativity) : js_scope.
Open Scope js_scope.

Definition get_heap : M heap := fun s => (Ok (st_heap s), s).

(** A new object: its reference is the first one not yet in use. *)
Definition alloc (o : object) : M val :=
  fun s =>
    (Ok (VRef (length (st_heap s))),
     {| st_heap := (st_heap s ++ [o])%list; self := self s; st_calls := st_calls s |}).

(** [this.abilities.push(a)]. *)
Definition push (a : ability) : M unit :=
  fun s =>
    (Ok tt,
     {| st_heap := st_heap s;
        self := {| abilities := (abilities (self s) ++ [a])%list;
                   instanceOf := instanceOf (self s);
                   createError := createError (self s) |};
        st_calls := st_calls s |}).

Definition record_call (c : call_event) : M unit :=
  fun s =>
    (Ok tt,
     {| st_heap := st_heap s; self := self s; st_calls := (st_calls s ++ [c])%list |}).

(** [array.forEach(f)]. *)
Fixpoint forEach {A : Type} (array : list A) (f : A -> M unit) : M unit :=
  match array with
  | [] => ret tt
  | a :: array' => f a ;;; forEach array' f
  end.

(** [array.filter(f)] for a callback that may throw; the value it returns is
    taken as a boolean. *)
Fixpoint filter_js {A : Type} (f : A -> result val) (array : list A) : result (list A) :=
  match array with
  | [] => Ok []
  | a :: array' =>
      match f a with
      | Throw e => Throw e
      | Ok v =>
          match filter_js f array' with
          | Throw e => Throw e
          | Ok kept => Ok (if truthy v then a :: kept else kept)
          end
      end
  end.

(** [keys.every(f)]: stops at the first key for which [f] is falsy. *)
Fixpoint every (f : string -> result val) (keys : list string) : result val :=
  match keys with
  | [] => Ok (VBool true)
  | key :: keys' =>
      match f key with
      | Throw e => Throw e
      | Ok v => if truthy v then every f keys' else Ok (VBool false)
      end
  end.

(** ** [src/index.js] *)

Section Index.

Variable H : host.

(** [get], lines 7-9.  [call] is the function-call mechanism, defined below. *)
Definition get (call : heap -> val -> receiver -> list val -> result val)
    (h : heap) (obj : val) (key : string) : result val :=
  match read_prop H h obj "get" with
  | Throw e => Throw e
  | Ok getter =>
      if typeof h getter =? "function"
      then call h getter (OnValue obj) [VString key]
      else read_prop H h obj key
  end.

(** [isPartiallyEqual], lines 11-15. *)
Definition isPartiallyEqual (call : heap -> val -> receiver -> list val -> result val)
    (h : heap) (target obj : val) : result val :=
  match object_keys h obj with
  | Throw e => Throw e
  | Ok keys =>
      every (fun key =>
               match get call h target key with
               | Throw e => Throw e
               | Ok attribute =>
                   match read_prop H h obj key with
                   | Throw e => Throw e
                   | Ok expected => Ok (VBool (strict_eq attribute expected))
                   end
               end) keys
  end.

Definition not_a_function : error :=
  NativeError "TypeError" "not a function".
Definition stack_overflow : error :=
  NativeError "RangeError" "Maximum call stack size exceeded".

(** Calling a function value.  The arrow function of [getConditionFn],
    [(performer, target) => isPartiallyEqual(target, condition)] (line 18),
    may itself sit behind a [get] property, hence the nesting; [depth]
    bounds it, and [call_fn_depth] shows that two levels are all there are. *)
Fixpoint call_fn (depth : nat) (h : heap) (fn : val) (this : receiver)
    (arguments : list val) : result val :=
  match closure_of h fn with
  | None => Throw not_a_function
  | Some (UserFn f) => user_code H f h this arguments
  | Some (ConditionFn condition) =>
      match depth with
      | O => Throw stack_overflow
      | S depth' =>
          isPartiallyEqual (call_fn depth') h (nth 1 arguments VUndefined) condition
      end
  end.

Definition call : heap -> val -> receiver -> list val -> result val :=
  call_fn 2.

(** [getConditionFn], lines 17-19: a new function object. *)
Definition getConditionFn (condition : val) : M val :=
  alloc {| o_kind := KFunction (ConditionFn condition);
           o_protos := []; o_props := [] |}.

(** Line 21. *)
Definition defaultInstanceOf (h : heap) (instance model : val) : result val :=
  instanceof H h instance model.

(** Line 22. *)
Definition defaultCreateError (h : heap) (arguments : list val) : result error :=
  Ok (NativeError "Error" "Authorization error").

(** What an async function or [Promise.all] hands back: a promise, given by
    how it settles and by its place in the event-loop order. *)
Definition promise (A : Type) : Type := (settled A * nat)%type.

(** The rejection that comes first in event-loop order; among promises that
    reject at the same moment the reactions run in subscription order. *)
Fixpoint first_rejection {A : Type} (promises : list (promise A)) : option (error * nat) :=
  match promises with
  | [] => None
  | (Rejected e, t) :: promises' =>
      match first_rejection promises' with
      | Some (e', t') => if Nat.ltb t' t then Some (e', t') else Some (e, t)
      | None => Some (e, t)
      end
  | _ :: promises' => first_rejection promises'
  end.

Fixpoint fulfilments {A : Type} (promises : list (promise A)) : option (list A) :=
  match promises with
  | [] => Some []
  | (Fulfilled a, _) :: promises' =>
      match fulfilments promises' with
      | Some values => Some (a :: values)
      | None => None
      end
  | _ :: promises' => None
  end.

(** [Promise.all(promises)]. *)
Definition promise_all {A : Type} (promises : list (promise A)) : settled (list A) :=
  match first_rejection promises with
  | Some (e, _) => Rejected e
  | None =>
      match fulfilments promises with
      | Some values => Fulfilled values
      | None => Pending
      end
  end.

(** [array.map(fn)], for a callback that acts on the state and cannot throw
    (an async function turns a throw into a rejected promise). *)
Fixpoint map_js {A B : Type} (fn : A -> state -> B * state) (array : list A)
    (s : state) : list B * state :=
  match array with
  | [] => ([], s)
  | a :: array' =>
      let (b, s1) := fn a s in
      let (bs, s2) := map_js fn array' s1 in
      (b :: bs, s2)
  end.

(** [mapAsync], lines 24-26. *)
Definition mapAsync {A B : Type} (array : list A)
    (fn : A -> state -> promise B * state) (s : state) : settled (list B) * state :=
  let (promises, s') := map_js fn array s in
  (promise_all promises, s').

(** [.then(f)] on the settlement of a promise. *)
Definition then_ {A B : Type} (p : settled A) (f : A -> B) : settled B :=
  match p with
  | Fulfilled a => Fulfilled (f a)
  | Rejected e => Rejected e
  | Pending => Pending
  end.

(** [filterAsync], lines 28-31: the mapped values that are truthy. *)
Definition filterAsync {A : Type} (array : list A)
    (fn : A -> state -> promise val * state) (s : state) : settled (list val) * state :=
  let (mapped, s') := mapAsync array fn s in
  (then_ mapped (fun mappedArray => filter truthy mappedArray), s').

(** [allow], lines 44-58. *)
Definition allow (model actions targets condition : val) : M unit :=
  h <- get_heap ;;
  (if negb (typeof h condition =? "undefined")
      && negb (typeof h condition =? "function")
      && negb (isObject h condition)
   then throw (NativeError "TypeError"
                 ("Expected condition to be object or function, got "
                    ++ typeof h condition)%string)
   else ret tt) ;;;
  condition <- (if isObject h condition
                then getConditionFn condition
                else ret condition) ;;
  h <- get_heap ;;
  forEach (arrify h actions) (fun action =>
    h <- get_heap ;;
    forEach (arrify h targets) (fun target =>
      push {| Ability.model := model; Ability.action := action;
              Ability.target := target; Ability.condition := condition |})).

(** The three [.filter] calls of [can], lines 61-71. *)
Definition filteredAbilities (this : CanCan) (h : heap)
    (performer action target : val) : result (list ability) :=
  match filter_js (fun ability =>
                     instanceOf this h performer (Ability.model ability))
                  (abilities this) with
  | Throw e => Throw e
  | Ok by_model =>
      match filter_js (fun ability =>
                         if strict_eq (Ability.target ability) (VString "all")
                         then Ok (VBool true)
                         else if strict_eq target (Ability.target ability)
                         then Ok (VBool true)
                         else instanceOf this h target (Ability.target ability))
                      by_model with
      | Throw e => Throw e
      | Ok by_target =>
          Ok (filter (fun ability =>
                        strict_eq (Ability.action ability) (VString "manage")
                        || strict_eq action (Ability.action ability))
                     by_target)
      end
  end.

(** [options || {}], line 75. *)
Definition options_or_empty (options : val) : M val :=
  if truthy options then ret options else alloc empty_object.

(** The async callback handed to [filterAsync], lines 73-79. *)
Definition conditionCallback (performer target options : val) (ability : ability)
    (s : state) : promise val * state :=
  if truthy (Ability.condition ability)
  then
    match (options <- options_or_empty options ;;
           record_call {| callee := Ability.condition ability;
                          args := [performer; target; options] |} ;;;
           ret options) s with
    | (Ok options, s') =>
        (match call (st_heap s') (Ability.condition ability) (OnAbility ability)
                 [performer; target; options] with
         | Throw e => (Rejected e, 0)
         | Ok v => await H v
         end, s')
    | (Throw e, s') => ((Rejected e, 0), s')
    end
  else ((Fulfilled (VBool true), 0), s).

(** [can], lines 60-82: the settlement of the promise it returns. *)
Definition can (performer action target options : val) (s : state)
    : settled val * state :=
  match filteredAbilities (self s) (st_heap s) performer action target with
  | Throw e => (Rejected e, s)
  | Ok filtered =>
      let (passed, s') :=
        filterAsync filtered (conditionCallback performer target options) s in
      (then_ passed (fun filteredAbilities =>
                       VBool (Nat.ltb 0 (length filteredAbilities))), s')
  end.

(** [f.apply(this, arguments)] for the four-parameter [can]. *)
Definition can_apply (arguments : list val) : state -> settled val * state :=
  can (nth 0 arguments VUndefined) (nth 1 arguments VUndefined)
      (nth 2 arguments VUndefined) (nth 3 arguments VUndefined).

(** [cannot], lines 84-86. *)
Definition cannot (arguments : list val) (s : state) : settled val * state :=
  let (awaited, s') := can_apply arguments s in
  (then_ awaited (fun v => VBool (negb (truthy v))), s').

(** [authorize], lines 88-93. *)
Definition authorize (arguments : list val) (s : state) : settled val * state :=
  let (awaited, s') := cannot arguments s in
  (match awaited with
   | Fulfilled v =>
       if truthy v
       then match createError (self s') (st_heap s') arguments with
            | Ok err => Rejected err
            | Throw e => Rejected e
            end
       else Fulfilled VUndefined
   | Rejected e => Rejected e
   | Pending => Pending
   end, s').

(** The constructor, lines 34-42; [options] and its two fields may be absent. *)
Record Options : Type := {
  opt_instanceOf : option (heap -> val -> val -> result val);
  opt_createError : option (heap -> list val -> result error)
}.

Definition or_default {A : Type} (configured : option A) (default : A) : A :=
  match configured with
  | Some a => a
  | None => default
  end.

Definition new_CanCan (options : option Options) : CanCan :=
  let options := or_default options
                   {| opt_instanceOf := None; opt_createError := None |} in
  {| abilities := [];
     instanceOf := or_default (opt_instanceOf options) defaultInstanceOf;
     createError := or_default (opt_createError options) defaultCreateError |}.

End Index.

(** ** Vocabulary of the statements *)

Section Vocabulary.

Variable H : host.

(** A call that returns, and returns something truthy. *)
Definition holds (r : result val) : Prop :=
  exists v, r = Ok v /\ truthy v = true.

(** The three match dimensions of a query against one rule. *)
Definition model_matches (this : CanCan) (h : heap) (performer : val)
    (a : ability) : Prop :=
  holds (instanceOf this h performer (Ability.model a)).

Definition target_matches (this : CanCan) (h : heap) (target : val)
    (a : ability) : Prop :=
  Ability.target a = VString "all"
  \/ strict_eq target (Ability.target a) = true
  \/ holds (instanceOf this h target (Ability.target a)).

Definition action_matches (action : val) (a : ability) : Prop :=
  Ability.action a = VString "manage"
  \/ strict_eq action (Ability.action a) = true.

Definition has_condition (a : ability) : bool := truthy (Ability.condition a).

(** The heap before the [k]-th condition invocation of a query that started
    in [h]: with falsy [options] every earlier invocation has allocated its own
    [{}]. *)
Definition heap_before (h : heap) (options : val) (k : nat) : heap :=
  if truthy options then h else h ++ repeat empty_object k.

(** The heap in which the [k]-th invocation runs, and the third argument it
    is given. *)
Definition heap_at (h : heap) (options : val) (k : nat) : heap :=
  heap_before h options (S k).

Definition options_at (h : heap) (options : val) (k : nat) : val :=
  if truthy options then options else VRef (length h + k).

(** The promise of the callback of lines 73-79 for rule [a], when [a] is the
    [k]-th rule with a condition among those that passed the filters. *)
Definition outcome_at (h : heap) (performer target options : val) (k : nat)
    (a : ability) : promise val :=
  if has_condition a
  then match call H (heap_at h options k) (Ability.condition a) (OnAbility a)
               [performer; target; options_at h options k] with
       | Throw e => (Rejected e, 0)
       | Ok v => await H v
       end
  else (Fulfilled (VBool true), 0).

Definition invocations (l : list ability) : nat :=
  length (filter has_condition l).

Fixpoint outcomes (h : heap) (performer target options : val) (k : nat)
    (l : list ability) : list (promise val) :=
  match l with
  | [] => []
  | a :: l' =>
      outcome_at h performer target options k a
        :: outcomes h performer target options
             (if has_condition a then S k else k) l'
  end.

(** The condition of [a] is absent or settles with a truthy value. *)
Definition condition_passes (h : heap) (performer target options : val)
    (k : nat) (a : ability) : Prop :=
  exists v, fst (outcome_at h performer target options k a) = Fulfilled v
            /\ truthy v = true.

(** The same, read as the words "resolves to true" say. *)
Definition condition_resolves_to_true (h : heap) (performer target options : val)
    (k : nat) (a : ability) : Prop :=
  Ability.condition a = VUndefined
  \/ fst (outcome_at h performer target options k a) = Fulfilled (VBool true).

(** The outcome of a condition does not depend on how many [{}] the query
    has allocated before invoking it.  JavaScript code cannot tell one fresh
    empty object from another; the functions of a [host] could. *)
Definition position_independent (h : heap) (performer target options : val)
    (l : list ability) : Prop :=
  forall a k k', In a l ->
    outcome_at h performer target options k a
    = outcome_at h performer target options k' a.

End Vocabulary.

(** ** Vocabulary of the statements: the registry *)

(** The state with [rules] pushed onto [this.abilities]. *)
Definition pushed (s : state) (rules : list ability) : state :=
  {| st_heap := st_heap s;
     self := {| abilities := abilities (self s) ++ rules;
                instanceOf := instanceOf (self s);
                createError := createError (self s) |};
     st_calls := st_calls s |}.

(** The rules one [allow] declares: one per pair, actions outermost. *)
Definition declared (model : val) (actions targets : list val) (condition : val)
    : list ability :=
  flat_map (fun action =>
              map (fun target =>
                     {| Ability.model := model; Ability.action := action;
                        Ability.target := target;
                        Ability.condition := condition |})
                  targets)
           actions.

(** The check of line 45. *)
Definition rejected_condition (h : heap) (condition : val) : bool :=
  negb (typeof h condition =? "undefined")
  && negb (typeof h condition =? "function")
  && negb (isObject h condition).

Definition condition_error (h : heap) (condition : val) : error :=
  NativeError "TypeError"
    ("Expected condition to be object or function, got " ++ typeof h condition).

(** What [allow] stores as the condition, and the heap it leaves. *)
Definition stored_condition (h : heap) (condition : val) : val :=
  if isObject h condition then VRef (length h) else condition.

Definition heap_after_allow (h : heap) (condition : val) : heap :=
  if isObject h condition
  then h ++ [{| o_kind := KFunction (ConditionFn condition);
                o_protos := []; o_props := [] |}]
  else h.

(** The machine with the rules of the registry put in another order. *)
Definition reordered (s : state) (rules : list ability) : state :=
  {| st_heap := st_heap s;
     self := {| abilities := rules;
                instanceOf := instanceOf (self s);
                createError := createError (self s) |};
     st_calls := st_calls s |}.

(** ** Vocabulary of the statements: attribute maps *)

(** The comparison of line 14 for one key. *)
Definition attribute_equals (H : host) (h : heap) (target obj : val) (key : string) : Prop :=
  exists attribute expected,
    get H (call H) h target key = Ok attribute
    /\ read_prop H h obj key = Ok expected
    /\ strict_eq attribute expected = true.

(** The attribute read as the specification words it: the getter method of
    the target when the target exposes one, direct property lookup otherwise. *)
Definition exposed_getter (H : host) (h : heap) (target : val) : option val :=
  match read_prop H h target "get" with
  | Ok getter =>
      match closure_of h getter with
      | Some _ => Some getter
      | None => None
      end
  | Throw _ => None
  end.

Definition read_attribute (H : host) (h : heap) (target : val) (key : string)
    : result val :=
  match exposed_getter H h target with
  | Some getter => call H h getter (OnValue target) [VString key]
  | None => read_prop H h target key
  end.

(** ** Vocabulary of the statements: the filters *)

Definition truthy_result (r : result val) : bool :=
  match r with
  | Ok v => truthy v
  | Throw _ => false
  end.

Definition matches_model (this : CanCan) (h : heap) (performer : val)
    (a : ability) : bool :=
  truthy_result (instanceOf this h performer (Ability.model a)).

Definition matches_target (this : CanCan) (h : heap) (target : val)
    (a : ability) : bool :=
  strict_eq (Ability.target a) (VString "all")
  || strict_eq target (Ability.target a)
  || truthy_result (instanceOf this h target (Ability.target a)).

Definition matches_action (action : val) (a : ability) : bool :=
  strict_eq (Ability.action a) (VString "manage")
  || strict_eq action (Ability.action a).

(** A rule that the three filters keep. *)
Definition passes_filters (this : CanCan) (h : heap)
    (performer action target : val) (a : ability) : bool :=
  matches_model this h performer a
  && matches_target this h target a
  && matches_action action a.

(** ** Vocabulary of the statements: the promises of a query *)

Definition fulfilled {A : Type} (p : promise A) : Prop :=
  exists v, fst p = Fulfilled v.

Definition fulfilled_truthy (p : promise val) : bool :=
  match fst p with
  | Fulfilled v => truthy v
  | _ => false
  end.

(** The promise that the callback of lines 73-79 returns when the call of
    the condition ended as [r]: an [async] function rejects with what its body
    throws and follows what its body returns. *)
Definition promise_of (H : host) (r : result val) : promise val :=
  match r with
  | Throw e => (Rejected e, 0)
  | Ok v => await H v
  end.

(** The decision taken from the promises of the callbacks: lines 25, 30
    and 81. *)
Definition decision (promises : list (promise val)) : settled val :=
  then_ (then_ (promise_all promises) (filter truthy))
        (fun passed => VBool (Nat.ltb 0 (length passed))).

(** The query completes: no filter throws and the condition of every rule
    that passed the filters settles as fulfilled. *)
Definition completes (H : host) (s : state)
    (performer action target options : val) : Prop :=
  exists filtered,
    filteredAbilities (self s) (st_heap s) performer action target = Ok filtered
    /\ Forall fulfilled
         (outcomes H (st_heap s) performer target options 0 filtered).


(** The condition invocations of a query, as [conditionCallback] records
    them; [k] invocations came before. *)
Fixpoint events (h : heap) (performer target options : val) (k : nat)
    (l : list ability) : list call_event :=
  match l with
  | [] => []
  | a :: l' =>
      if has_condition a
      then {| callee := Ability.condition a;
              args := [performer; target; options_at h options k] |}
             :: events h performer target options (S k) l'
      else events h performer target options k l'
  end.

(** The state in which a query leaves the machine. *)
Definition queried (s : state) (h : heap) (calls : list call_event) : state :=
  {| st_heap := h; self := self s; st_calls := st_calls s ++ calls |}.

(** ** A program: the classes, objects and conditions of the test suite *)

Module Scenario.

Definition plain_host : host :=
  {| user_code := fun _ _ _ _ => Ok VUndefined;
     host_prop := fun _ _ _ => VUndefined;
     fate := fun _ => Pending;
     settles_at := fun _ => 0 |}.

(** [this.attrs[key]], the body of [Model.prototype.get]. *)
Definition attrs_of (h : heap) (obj : val) (key : string) : result val :=
  match read_prop plain_host h obj "attrs" with
  | Ok attrs => read_prop plain_host h attrs key
  | Throw e => Throw e
  end.

Definition code (f : fid) (h : heap) (this : receiver) (arguments : list val)
    : result val :=
  match f with
  | 0 => (* get(key) { return this.attrs[key] } *)
      match this, arguments with
      | OnValue obj, VString key :: _ => attrs_of h obj key
      | _, _ => Ok VUndefined
      end
  | 2 => (* user => user.get('admin') *)
      attrs_of h (nth 0 arguments VUndefined) "admin"
  | 3 => (* async () => { await delay(30); return false } *)
      Ok (VPromise 0)
  | 4 => (* () => { throw 'boom' } *)
      Throw (Thrown (VString "boom"))
  | 5 => (* () => 1 *)
      Ok (VNumber 1)
  | 6 => (* async () => { await delay(30); throw 'late' } *)
      Ok (VPromise 1)
  | 7 => (* (performer, target, options) => options.fields *)
      read_prop plain_host h (nth 2 arguments VUndefined) "fields"
  | _ => Ok VUndefined
  end.

Definition program : host :=
  {| user_code := code;
     host_prop := fun _ _ _ => VUndefined;
     fate := fun p => match p with
                      | 0 => Fulfilled (VBool false)
                      | 1 => Rejected (Thrown (VString "late"))
                      | _ => Pending
                      end;
     settles_at := fun _ => 30 |}.

Definition object_of (k : kind) (protos : list loc) (props : list (string * val))
    : object :=
  {| o_kind := k; o_protos := protos; o_props := props |}.

Definition objects : heap :=
  [ object_of KOrdinary [] [("get", VRef 1)];                      (* 0 Model.prototype *)
    object_of (KFunction (UserFn 0)) [] [];                        (* 1 its get *)
    object_of (KFunction (UserFn 1)) [] [("prototype", VRef 0)];   (* 2 Model *)
    object_of KOrdinary [0] [];                                    (* 3 User.prototype *)
    object_of (KFunction (UserFn 1)) [2] [("prototype", VRef 3)];  (* 4 User *)
    object_of KOrdinary [0] [];                                    (* 5 Product.prototype *)
    object_of (KFunction (UserFn 1)) [2] [("prototype", VRef 5)];  (* 6 Product *)
    object_of KOrdinary [] [];                                     (* 7 {} *)
    object_of KOrdinary [3; 0] [("attrs", VRef 7)];                (* 8 new User() *)
    object_of KOrdinary [5; 0] [("attrs", VRef 7)];                (* 9 new Product() *)
    object_of KOrdinary [] [("published", VBool true)];            (* 10 {published: true} *)
    object_of KOrdinary [5; 0] [("attrs", VRef 10)];               (* 11 new Product({published: true}) *)
    object_of KOrdinary [] [("admin", VBool true)];                (* 12 {admin: true} *)
    object_of KOrdinary [3; 0] [("attrs", VRef 12)];               (* 13 new User({admin: true}) *)
    object_of (KFunction (UserFn 2)) [] [];                        (* 14 user => user.get('admin') *)
    object_of (KFunction (UserFn 3)) [] [];                        (* 15 async, resolves false *)
    object_of (KFunction (UserFn 4)) [] [];                        (* 16 throws 'boom' *)
    object_of (KArray [VString "read"; VString "create"; VString "destroy"]) [] [];  (* 17 *)
    object_of (KFunction (UserFn 5)) [] [];                        (* 18 () => 1 *)
    object_of (KFunction (UserFn 6)) [] [];                        (* 19 async, rejects 'late' *)
    object_of (KFunction (UserFn 7)) [] [];                        (* 20 reads options.fields *)
    object_of KOrdinary [] [("fields", VString "role")]            (* 21 {fields: 'role'} *)
  ].

Definition User : val := VRef 4.
Definition Product : val := VRef 6.
Definition user : val := VRef 8.
Definition product : val := VRef 9.
Definition publicProduct : val := VRef 11.
Definition adminUser : val := VRef 13.
Definition read : val := VString "read".

(** [new CanCan()] in a program that has built the objects above. *)
Definition fresh : state :=
  {| st_heap := objects; self := new_CanCan program None; st_calls := [] |}.

Definition after {A : Type} (m : M A) (s : state) : state := snd (m s).

(** [allow(User, 'read', Product)] *)
Definition one_rule : state :=
  after (allow User read Product VUndefined) fresh.

(** ... then [allow(User, 'read', Product, () => { throw 'boom' })] *)
Definition with_throwing_rule : state :=
  after (allow User read Product (VRef 16)) one_rule.

(** [allow(User, 'read', Product, () => 1)] *)
Definition with_number_rule : state :=
  after (allow User read Product (VRef 18)) fresh.

(** [allow(User, 'read', Product, () => 1)], then
    [allow(User, 'manage', 'all')] *)
Definition with_number_and_plain_rule : state :=
  after (allow User (VString "manage") (VString "all") VUndefined)
        with_number_rule.


(** [allow(User, 'read', Product, {published: true})] *)
Definition published_rule : state :=
  after (allow User read Product (VRef 10)) fresh.

End Scenario.

(** ** Two more programs *)

(** A map [{published: true, owner: 1}] against an object whose [get] gives
    [false] for ['published'] and throws on every other key. *)
Module Picky.

Definition program : host :=
  {| user_code := fun _ _ _ arguments =>
                    match arguments with
                    | [VString "published"] => Ok (VBool false)
                    | _ => Throw (Thrown (VString "no such attribute"))
                    end;
     host_prop := fun _ _ _ => VUndefined;
     fate := fun _ => Pending;
     settles_at := fun _ => 0 |}.

Definition objects : heap :=
  [ {| o_kind := KOrdinary; o_protos := [];
       o_props := [("published", VBool true); ("owner", VNumber 1)] |};
    {| o_kind := KFunction (UserFn 0); o_protos := []; o_props := [] |};
    {| o_kind := KOrdinary; o_protos := []; o_props := [("get", VRef 1)] |} ].

End Picky.

(** A program in which no promise ever settles. *)
Module Hung.

Definition program : host :=
  {| user_code := Scenario.code;
     host_prop := fun _ _ _ => VUndefined;
     fate := fun _ => Pending;
     settles_at := fun _ => 0 |}.

(** [allow(User, 'read', Product)], then
    [allow(User, 'read', Product, async () => ...)] *)
Definition two_rules : state :=
  Scenario.after
    (allow Scenario.User Scenario.read Scenario.Product (VRef 15))
    Scenario.one_rule.

End Hung.

(** ** Facts about values *)

Lemma strict_eq_string (v : val) (s : string) :
  strict_eq v (VString s) = true <-> v = VString s.
Proof.
  split.
  - destruct v; simpl; intro E; try discriminate.
    apply String.eqb_eq in E. now subst.
  - intros ->. simpl. apply String.eqb_refl.
Qed.

Lemma typeof_undefined (h : heap) (v : val) :
  (typeof h v =? "undefined") = true <-> v = VUndefined.
Proof.
  split.
  - destruct v; unfold typeof; intro E; try discriminate; try reflexivity.
    destruct (closure_of h (VRef l)); discriminate.
  - intros ->. reflexivity.
Qed.

Lemma typeof_function (h : heap) (v : val) :
  (typeof h v =? "function") = true <-> closure_of h v <> None.
Proof.
  split.
  - destruct v; unfold typeof; intro E; try discriminate.
    destruct (closure_of h (VRef l)); [discriminate|discriminate E].
  - destruct v; unfold typeof; intro E; try (now elim E).
    destruct (closure_of h (VRef l)); [reflexivity|now elim E].
Qed.

Lemma isObject_ref (h : heap) (v : val) :
  isObject h v = true ->
  exists l o, v = VRef l /\ nth_error h l = Some o
              /\ o_kind o = KOrdinary /\ o_protos o = [].
Proof.
  destruct v; simpl; try discriminate.
  destruct (nth_error h l) as [o|] eqn:E; [|discriminate].
  destruct (o_kind o) eqn:K; try discriminate.
  destruct (o_protos o) eqn:P; try discriminate.
  intros _. now exists l, o.
Qed.

(** Allocation leaves what was there. *)
Lemma nth_error_alloc (h : heap) (o : object) (l : loc) (x : object) :
  nth_error h l = Some x -> nth_error (h ++ [o]) l = Some x.
Proof.
  intro E. rewrite nth_error_app1; [exact E|].
  apply nth_error_Some. congruence.
Qed.

Lemma array_elements_alloc_function (h : heap) (c : closure) (v : val) :
  array_elements
    (h ++ [{| o_kind := KFunction c; o_protos := []; o_props := [] |}]) v
  = array_elements h v.
Proof.
  destruct v; simpl; try reflexivity.
  destruct (nth_error h l) as [o|] eqn:E.
  - now rewrite (nth_error_alloc _ _ _ _ E).
  - apply nth_error_None in E.
    destruct (Nat.eq_dec l (length h)) as [->|N].
    + rewrite nth_error_app2 by lia. now rewrite Nat.sub_diag.
    + assert (G : nth_error (h ++ [{| o_kind := KFunction c; o_protos := [];
                                     o_props := [] |}]) l = None).
      { apply nth_error_None. rewrite length_app. simpl. lia. }
      now rewrite G.
Qed.

Lemma arrify_alloc_function (h : heap) (c : closure) (v : val) :
  arrify (h ++ [{| o_kind := KFunction c; o_protos := []; o_props := [] |}]) v
  = arrify h v.
Proof.
  unfold arrify. now rewrite array_elements_alloc_function.
Qed.

Lemma every_ext (f g : string -> result val) (keys : list string) :
  (forall key, f key = g key) -> every f keys = every g keys.
Proof.
  intro E. induction keys as [|key keys IH]; [reflexivity|].
  cbn [every]. rewrite E, IH. reflexivity.
Qed.

(** ** Facts about [call] *)

Section CallFacts.

Variable H : host.

(** With no target at hand, the arrow function of [getConditionFn] does not
    get as far as calling anything. *)
Lemma isPartiallyEqual_undefined
    (c c' : heap -> val -> receiver -> list val -> result val)
    (h : heap) (obj : val) :
  isPartiallyEqual H c h VUndefined obj = isPartiallyEqual H c' h VUndefined obj.
Proof.
  unfold isPartiallyEqual.
  destruct (object_keys h obj) as [keys|e]; [|reflexivity].
  destruct keys; reflexivity.
Qed.

Lemma call_fn_getter (n : nat) (h : heap) (fn obj : val) (key : val) :
  call_fn H (S n) h fn (OnValue obj) [key] = call_fn H 1 h fn (OnValue obj) [key].
Proof.
  simpl. destruct (closure_of h fn) as [[f|condition]|];
    first [reflexivity | apply isPartiallyEqual_undefined].
Qed.

Lemma get_depth (n : nat) (h : heap) (obj : val) (key : string) :
  get H (call_fn H (S n)) h obj key = get H (call_fn H 1) h obj key.
Proof.
  unfold get. destruct (read_prop H h obj "get") as [getter|e]; [|reflexivity].
  destruct (typeof h getter =? "function"); [|reflexivity].
  apply call_fn_getter.
Qed.

Lemma isPartiallyEqual_depth (n : nat) (h : heap) (target obj : val) :
  isPartiallyEqual H (call_fn H (S n)) h target obj
  = isPartiallyEqual H (call_fn H 1) h target obj.
Proof.
  unfold isPartiallyEqual.
  destruct (object_keys h obj) as [keys|e]; [|reflexivity].
  apply every_ext. intro key. now rewrite get_depth.
Qed.

(** The nesting of [call_fn] is never deeper than two: [call] is total and
    the bound is never met. *)
Lemma call_fn_depth (n : nat) (h : heap) (fn : val) (this : receiver)
    (arguments : list val) :
  call_fn H (S (S n)) h fn this arguments = call H h fn this arguments.
Proof.
  unfold call.
  change (call_fn H (S (S n)) h fn this arguments)
    with (match closure_of h fn with
          | None => Throw not_a_function
          | Some (UserFn f) => user_code H f h this arguments
          | Some (ConditionFn condition) =>
              isPartiallyEqual H (call_fn H (S n)) h (nth 1 arguments VUndefined)
                condition
          end).
  change (call_fn H 2 h fn this arguments)
    with (match closure_of h fn with
          | None => Throw not_a_function
          | Some (UserFn f) => user_code H f h this arguments
          | Some (ConditionFn condition) =>
              isPartiallyEqual H (call_fn H 1) h (nth 1 arguments VUndefined)
                condition
          end).
  destruct (closure_of h fn) as [[f|condition]|];
    first [apply isPartiallyEqual_depth | reflexivity].
Qed.

Lemma call_ConditionFn (h : heap) (fn condition : val) (this : receiver)
    (arguments : list val) :
  closure_of h fn = Some (ConditionFn condition) ->
  call H h fn this arguments
  = isPartiallyEqual H (call H) h (nth 1 arguments VUndefined) condition.
Proof.
  intro E. unfold call at 1. simpl. rewrite E.
  symmetry. apply (isPartiallyEqual_depth 1).
Qed.

Lemma call_UserFn (h : heap) (fn : val) (f : fid) (this : receiver)
    (arguments : list val) :
  closure_of h fn = Some (UserFn f) ->
  call H h fn this arguments = user_code H f h this arguments.
Proof. intro E. unfold call. simpl. now rewrite E. Qed.

End CallFacts.

(** ** Facts about [allow] *)

Lemma pushed_nil (s : state) : pushed s [] = s.
Proof.
  destruct s as [h [rules io ce] calls]. unfold pushed. simpl.
  now rewrite app_nil_r.
Qed.

Lemma pushed_pushed (s : state) (l l' : list ability) :
  pushed (pushed s l) l' = pushed s (l ++ l').
Proof. unfold pushed. simpl. now rewrite app_assoc. Qed.

Lemma forEach_push {A : Type} (f : A -> ability) (array : list A) (s : state) :
  forEach array (fun x => push (f x)) s = (Ok tt, pushed s (map f array)).
Proof.
  revert s. induction array as [|x array IH]; intro s.
  - simpl. now rewrite pushed_nil.
  - cbn [forEach]. unfold bind at 1.
    change (push (f x) s) with (Ok tt, pushed s [f x]). cbv beta iota.
    rewrite IH, pushed_pushed. reflexivity.
Qed.

Lemma forEach_forEach_push (model condition : val) (actions : list val)
    (targets : val) (s : state) :
  forEach actions
    (fun action =>
       h <- get_heap ;;
       forEach (arrify h targets)
         (fun target =>
            push {| Ability.model := model; Ability.action := action;
                    Ability.target := target;
                    Ability.condition := condition |})) s
  = (Ok tt, pushed s (declared model actions (arrify (st_heap s) targets) condition)).
Proof.
  revert s. induction actions as [|action actions IH]; intro s.
  - simpl. now rewrite pushed_nil.
  - cbn [forEach]. unfold bind at 1. unfold bind at 1. unfold get_heap at 1.
    cbv beta iota.
    rewrite (forEach_push (fun target =>
               {| Ability.model := model; Ability.action := action;
                  Ability.target := target; Ability.condition := condition |})).
    rewrite IH, pushed_pushed. reflexivity.
Qed.

Lemma allow_run (model actions targets condition : val) (s : state) :
  allow model actions targets condition s
  = if rejected_condition (st_heap s) condition
    then (Throw (condition_error (st_heap s) condition), s)
    else (Ok tt,
          pushed {| st_heap := heap_after_allow (st_heap s) condition;
                    self := self s; st_calls := st_calls s |}
                 (declared model (arrify (st_heap s) actions)
                    (arrify (st_heap s) targets)
                    (stored_condition (st_heap s) condition))).
Proof.
  unfold allow, rejected_condition, condition_error, stored_condition,
    heap_after_allow.
  unfold bind at 1. unfold get_heap at 1.
  destruct (negb (typeof (st_heap s) condition =? "undefined")
            && negb (typeof (st_heap s) condition =? "function")
            && negb (isObject (st_heap s) condition)) eqn:Bad.
  - reflexivity.
  - unfold bind at 1. unfold ret at 1.
    destruct (isObject (st_heap s) condition) eqn:Plain.
    + unfold bind at 1. unfold getConditionFn, alloc.
      unfold bind at 1. unfold get_heap at 1.
      rewrite forEach_forEach_push. cbn [st_heap].
      rewrite !arrify_alloc_function. reflexivity.
    + unfold bind at 1. unfold ret at 1.
      unfold bind at 1. unfold get_heap at 1.
      rewrite forEach_forEach_push.
      destruct s as [h this calls]. reflexivity.
Qed.



(** ** The claims about [allow] *)




(** C3.  [allow] throws if and only if the condition is present (not
    [undefined]) and is neither a function nor a plain object; what it throws
    then is a [TypeError] whose message ends with the [typeof] of the
    condition, and the state (registry and heap) is as before the call; with
    [undefined] for the condition it never throws. *)
Theorem allow_throws_iff :
  forall (model actions targets condition : val) (s : state),
    ((exists e, fst (allow model actions targets condition s) = Throw e)
     <-> (condition <> VUndefined
          /\ closure_of (st_heap s) condition = None
          /\ isObject (st_heap s) condition = false))
    /\ (forall e,
          fst (allow model actions targets condition s) = Throw e ->
          e = NativeError "TypeError"
                ("Expected condition to be object or function, got "
                   ++ typeof (st_heap s) condition)
          /\ snd (allow model actions targets condition s) = s)
    /\ fst (allow model actions targets VUndefined s) = Ok tt.
Proof.
  intros model actions targets condition s.
  assert (Bad : rejected_condition (st_heap s) condition = true
                <-> (condition <> VUndefined
                     /\ closure_of (st_heap s) condition = None
                     /\ isObject (st_heap s) condition = false)).
  { unfold rejected_condition.
    rewrite !andb_true_iff, !negb_true_iff.
    pose proof (typeof_undefined (st_heap s) condition) as U.
    pose proof (typeof_function (st_heap s) condition) as F.
    destruct (typeof (st_heap s) condition =? "undefined");
      destruct (typeof (st_heap s) condition =? "function");
      destruct (closure_of (st_heap s) condition) eqn:C;
      intuition (try discriminate; try congruence). }
  split; [|split].
  - rewrite allow_run, <- Bad.
    destruct (rejected_condition (st_heap s) condition); simpl.
    + split; [reflexivity|]. intros _. eexists. reflexivity.
    + split; [|discriminate]. intros (e & E). discriminate.
  - intros e. rewrite allow_run.
    destruct (rejected_condition (st_heap s) condition); simpl.
    + intros [= <-]. split; reflexivity.
    + discriminate.
  - rewrite allow_run. reflexivity.
Qed.

(** ** Facts about attribute-map conditions *)

Lemma every_true (f : string -> result val) (keys : list string) :
  every f keys = Ok (VBool true) <-> Forall (fun key => holds (f key)) keys.
Proof.
  induction keys as [|key keys IH]; cbn [every].
  - split; [constructor | reflexivity].
  - split.
    + destruct (f key) as [v|e] eqn:E; [|discriminate].
      destruct (truthy v) eqn:T; [|discriminate].
      intro R. constructor; [now exists v | now apply IH].
    + intro A. inversion A as [|? ? (v & E & T) A']. subst.
      rewrite E, T. now apply IH.
Qed.

Lemma every_boolean (f : string -> result val) (keys : list string) :
  every f keys = Ok (VBool true) \/ every f keys = Ok (VBool false)
  \/ exists e, every f keys = Throw e.
Proof.
  induction keys as [|key keys IH]; cbn [every]; [now left|].
  destruct (f key) as [v|e]; [|right; right; now exists e].
  destruct (truthy v); [exact IH | right; now left].
Qed.

Section AttributeMaps.

Variable H : host.

Lemma isPartiallyEqual_true (h : heap) (target obj : val) (keys : list string) :
  object_keys h obj = Ok keys ->
  (isPartiallyEqual H (call H) h target obj = Ok (VBool true)
   <-> Forall (attribute_equals H h target obj) keys).
Proof.
  intro K. unfold isPartiallyEqual. rewrite K, every_true.
  split; intro A; (eapply Forall_impl; [|exact A]); intro key;
    unfold holds, attribute_equals.
  - intros (v & E & T).
    destruct (get H (call H) h target key) as [attribute|e]; [|discriminate].
    destruct (read_prop H h obj key) as [expected|e]; [|discriminate].
    injection E as <-. now exists attribute, expected.
  - intros (attribute & expected & -> & -> & E).
    exists (VBool true). now rewrite E.
Qed.

Lemma isPartiallyEqual_boolean (h : heap) (target obj : val) :
  isPartiallyEqual H (call H) h target obj = Ok (VBool true)
  \/ isPartiallyEqual H (call H) h target obj = Ok (VBool false)
  \/ exists e, isPartiallyEqual H (call H) h target obj = Throw e.
Proof.
  unfold isPartiallyEqual.
  destruct (object_keys h obj) as [keys|e]; [|right; right; now exists e].
  apply every_boolean.
Qed.

End AttributeMaps.

(** ** The claims about attribute-map conditions *)

Lemma closure_of_extend (h h' : heap) (fn : val) (c : closure) :
  closure_of h fn = Some c -> closure_of (h ++ h') fn = Some c.
Proof.
  destruct fn; simpl; try discriminate.
  destruct (nth_error h l) as [o|] eqn:E; [|discriminate].
  rewrite nth_error_app1 by (apply nth_error_Some; congruence).
  now rewrite E.
Qed.

Lemma object_keys_empty_extend (h : heap) (m : val) (k : nat) :
  object_keys h m = Ok [] ->
  object_keys (h ++ repeat empty_object k) m = Ok [].
Proof.
  destruct m; simpl; try (intro E; exact E).
  destruct (nth_error h l) as [o|] eqn:E.
  - rewrite nth_error_app1 by (apply nth_error_Some; congruence).
    now rewrite E.
  - intros _. apply nth_error_None in E. rewrite nth_error_app2 by exact E.
    destruct (nth_error (repeat empty_object k) (l - length h)) as [o|] eqn:R;
      [|reflexivity].
    apply nth_error_In, repeat_spec in R. now subst.
Qed.

Lemma heap_before_extends (h : heap) (options : val) (k : nat) :
  exists h', heap_before h options k = h ++ h'
             /\ (truthy options = true -> h' = [])
             /\ (truthy options = false -> h' = repeat empty_object k).
Proof.
  unfold heap_before. destruct (truthy options).
  - exists []. rewrite app_nil_r. repeat split; congruence.
  - exists (repeat empty_object k). repeat split; congruence.
Qed.

Lemma read_prop_throws (H : host) (h : heap) (v : val) (k k' : string) (e : error) :
  read_prop H h v k = Throw e -> read_prop H h v k' = Throw e.
Proof.
  destruct v; simpl; try discriminate; try (intro E; exact E).
  destruct (nth_error h l) as [o|]; [|discriminate].
  destruct (assoc k (o_props o)); [discriminate|].
  destruct (chain_prop h (o_protos o) k); discriminate.
Qed.

Lemma get_read_attribute (H : host) (h : heap) (target : val) (key : string) :
  get H (call H) h target key = read_attribute H h target key.
Proof.
  unfold get, read_attribute, exposed_getter.
  destruct (read_prop H h target "get") as [getter|e] eqn:R.
  - pose proof (typeof_function h getter) as F.
    destruct (typeof h getter =? "function");
      destruct (closure_of h getter); try reflexivity.
    + exfalso. now apply (proj1 F).
    + exfalso. assert (X : false = true) by (apply F; discriminate).
      discriminate X.
  - symmetry. exact (read_prop_throws H h target "get" key e R).
Qed.

(** C4.  Declaring a rule with an attribute map [m] stores a function [fn];
    whatever the performer, the options and the receiver, calling [fn] on a
    target gives the same result, and that result is [true] if and only if for
    every key of [m] the attribute of the target, read through its [get]
    method when it has one and as a property otherwise, is strictly equal to
    the value [m] holds for that key.  A rule with [fn] and the same rule with
    a function of the program that computes this conjunction have the same
    callback promise in every query. *)
Theorem attribute_map_condition :
  forall (H : host) (model actions targets m : val) (s s' : state),
    isObject (st_heap s) m = true ->
    allow model actions targets m s = (Ok tt, s') ->
    exists fn : val,
      abilities (self s')
      = abilities (self s)
          ++ declared model (arrify (st_heap s) actions)
               (arrify (st_heap s) targets) fn
      /\ closure_of (st_heap s') fn = Some (ConditionFn m)
      /\ typeof (st_heap s') fn = "function"
      /\ forall (h : heap) (keys : list string),
           closure_of h fn = Some (ConditionFn m) ->
           object_keys h m = Ok keys ->
           forall (this this' : receiver)
                  (performer performer' target options options' : val),
             call H h fn this [performer; target; options]
             = call H h fn this' [performer'; target; options']
             /\ (call H h fn this [performer; target; options] = Ok (VBool true)
                 <-> Forall (fun key =>
                               exists attribute expected,
                                 read_attribute H h target key = Ok attribute
                                 /\ read_prop H h m key = Ok expected
                                 /\ strict_eq attribute expected = true)
                            keys)
             /\ (call H h fn this [performer; target; options] = Ok (VBool true)
                 \/ call H h fn this [performer; target; options] = Ok (VBool false)
                 \/ exists e,
                      call H h fn this [performer; target; options] = Throw e)
             /\ forall (g : val) (f : fid),
                  closure_of h g = Some (UserFn f) ->
                  (forall h' receiver arguments,
                      user_code H f h' receiver arguments
                      = isPartiallyEqual H (call H) h'
                          (nth 1 arguments VUndefined) m) ->
                  forall (model' action' target' : val) (k : nat),
                    outcome_at H h performer target options k
                      {| Ability.model := model'; Ability.action := action';
                         Ability.target := target'; Ability.condition := fn |}
                    = outcome_at H h performer target options k
                        {| Ability.model := model'; Ability.action := action';
                           Ability.target := target'; Ability.condition := g |}.
Proof.
  intros H model actions targets m s s' Plain Run.
  rewrite allow_run in Run.
  destruct (rejected_condition (st_heap s) m); [discriminate|].
  injection Run as <-.
  unfold stored_condition, heap_after_allow. rewrite Plain.
  exists (VRef (length (st_heap s))).
  assert (C : closure_of
                (st_heap s ++ [{| o_kind := KFunction (ConditionFn m);
                                  o_protos := []; o_props := [] |}])
                (VRef (length (st_heap s))) = Some (ConditionFn m)).
  { unfold closure_of. rewrite nth_error_app2 by lia.
    now rewrite Nat.sub_diag. }
  split; [reflexivity|]. split; [exact C|]. split.
  { cbn [pushed st_heap]. unfold typeof. now rewrite C. }
  intros h keys Fn Keys this this' performer performer' target options options'.
  rewrite !(call_ConditionFn H h _ m _ _ Fn). cbn [nth].
  split; [reflexivity|]. split.
  - rewrite (isPartiallyEqual_true H h target m keys Keys).
    split; intro A; (eapply Forall_impl; [|exact A]); intro key;
      unfold attribute_equals; rewrite get_read_attribute; exact (fun x => x).
  - split; [apply isPartiallyEqual_boolean|].
    intros g f G Same model' action' target' k.
    unfold outcome_at, has_condition. cbn [Ability.condition].
    destruct g; try discriminate G. cbn [truthy].
    destruct (heap_before_extends h options (S k)) as (h' & E & _).
    unfold heap_at. rewrite E.
    rewrite (call_ConditionFn H _ _ m _ _ (closure_of_extend h h' _ _ Fn)).
    rewrite (call_UserFn H _ _ f _ _ (closure_of_extend h h' _ _ G)).
    now rewrite Same.
Qed.

(** On the test suite's program: [allow(User, 'read', Product, {published:
    true})]. *)
Lemma attribute_map_condition_witness :
  isObject (st_heap Scenario.fresh) (VRef 10) = true
  /\ allow Scenario.User Scenario.read Scenario.Product (VRef 10) Scenario.fresh
     = (Ok tt, Scenario.published_rule)
  /\ exists fn : val,
       abilities (self Scenario.published_rule)
       = declared Scenario.User [Scenario.read] [Scenario.Product] fn
       /\ closure_of (st_heap Scenario.published_rule) fn
          = Some (ConditionFn (VRef 10)).
Proof.
  split; [reflexivity|]. split; [reflexivity|].
  destruct (attribute_map_condition Scenario.program Scenario.User Scenario.read
              Scenario.Product (VRef 10) Scenario.fresh Scenario.published_rule
              eq_refl eq_refl)
    as (fn & Rules & Fn & _).
  exists fn. split; [exact Rules | exact Fn].
Defined.

(** ** Facts about [can] *)

Lemma queried_nil (s : state) : queried s (st_heap s) [] = s.
Proof. destruct s. unfold queried. simpl. now rewrite app_nil_r. Qed.

Lemma heap_before_S (h : heap) (options : val) (k : nat) :
  truthy options = false ->
  heap_before h options k ++ [empty_object] = heap_before h options (S k).
Proof.
  intro F. unfold heap_before. rewrite F.
  rewrite <- app_assoc. f_equal. now rewrite <- repeat_cons.
Qed.

Lemma length_heap_before (h : heap) (options : val) (k : nat) :
  truthy options = false -> length (heap_before h options k) = length h + k.
Proof.
  intro F. unfold heap_before. rewrite F.
  now rewrite length_app, repeat_length.
Qed.

Section CanFacts.

Variable H : host.

Lemma conditionCallback_run (performer target options : val) (a : ability)
    (s : state) (h : heap) (k : nat) :
  st_heap s = heap_before h options k ->
  conditionCallback H performer target options a s
  = (outcome_at H h performer target options k a,
     if has_condition a
     then queried s (heap_at h options k)
            [{| callee := Ability.condition a;
                args := [performer; target; options_at h options k] |}]
     else s).
Proof.
  intro Heap. unfold conditionCallback, outcome_at, has_condition.
  destruct (truthy (Ability.condition a)); [|reflexivity].
  unfold options_or_empty, options_at, heap_at.
  destruct (truthy options) eqn:T.
  - unfold bind, ret, record_call. cbv beta iota. cbn [st_heap].
    unfold queried. rewrite Heap. unfold heap_before. rewrite T. reflexivity.
  - unfold bind, ret, record_call, alloc. cbv beta iota. cbn [st_heap self st_calls].
    unfold queried. rewrite Heap, (heap_before_S _ _ _ T),
      (length_heap_before _ _ _ T). reflexivity.
Qed.

Lemma map_js_conditionCallback (performer target options : val)
    (l : list ability) (s : state) (h : heap) (k : nat) :
  st_heap s = heap_before h options k ->
  map_js (conditionCallback H performer target options) l s
  = (outcomes H h performer target options k l,
     queried s (heap_before h options (k + invocations l))
       (events h performer target options k l)).
Proof.
  revert s k. induction l as [|a l IH]; intros s k Heap.
  - simpl. unfold invocations. simpl. rewrite Nat.add_0_r, <- Heap.
    now rewrite queried_nil.
  - cbn [map_js outcomes events].
    rewrite (conditionCallback_run _ _ _ _ _ h k Heap).
    unfold invocations. cbn [filter].
    destruct (has_condition a).
    + rewrite (IH _ (S k)) by reflexivity.
      unfold queried. cbn [st_heap self st_calls length].
      rewrite <- app_assoc, Nat.add_succ_r. reflexivity.
    + rewrite (IH _ k Heap). reflexivity.
Qed.

Lemma can_run (performer action target options : val) (s : state) :
  can H performer action target options s
  = match filteredAbilities (self s) (st_heap s) performer action target with
    | Throw e => (Rejected e, s)
    | Ok filtered =>
        (decision (outcomes H (st_heap s) performer target options 0 filtered),
         queried s (heap_before (st_heap s) options (invocations filtered))
           (events (st_heap s) performer target options 0 filtered))
    end.
Proof.
  unfold can.
  destruct (filteredAbilities (self s) (st_heap s) performer action target)
    as [filtered|e]; [|reflexivity].
  unfold filterAsync, mapAsync.
  rewrite (map_js_conditionCallback _ _ _ _ _ (st_heap s) 0).
  - reflexivity.
  - unfold heap_before. destruct (truthy options); [reflexivity|].
    simpl. now rewrite app_nil_r.
Qed.

End CanFacts.

(** ** Facts about promises *)

Lemma first_rejection_None {A : Type} (promises : list (promise A)) :
  first_rejection promises = None
  <-> forall e t, ~ In (Rejected e, t) promises.
Proof.
  induction promises as [|[[v|e|] t] promises IH]; cbn [first_rejection].
  - split; [intros _ e t []|reflexivity].
  - rewrite IH. split; intros N e' t'.
    + intros [E|I]; [discriminate|now apply (N e' t')].
    + intro I. apply (N e' t'). now right.
  - split.
    + destruct (first_rejection promises) as [[e' t']|];
        [destruct (Nat.ltb t' t)|]; discriminate.
    + intro N. exfalso. apply (N e t). now left.
  - rewrite IH. split; intros N e' t'.
    + intros [E|I]; [discriminate|now apply (N e' t')].
    + intro I. apply (N e' t'). now right.
Qed.

(** The rejection [Promise.all] passes on is one of the rejections, and none
    comes earlier. *)
Lemma first_rejection_Some {A : Type} (promises : list (promise A))
    (e : error) (t : nat) :
  first_rejection promises = Some (e, t) ->
  In (Rejected e, t) promises
  /\ forall e' t', In (Rejected e', t') promises -> t <= t'.
Proof.
  revert e t.
  induction promises as [|[[v|e0|] t0] promises IH]; intros e t;
    cbn [first_rejection]; try discriminate.
  - intro E. destruct (IH e t E) as [I L]. split; [now right|].
    intros e' t' [X|I']; [discriminate|eauto].
  - destruct (first_rejection promises) as [[e1 t1]|] eqn:R.
    + destruct (IH e1 t1 eq_refl) as [I L].
      destruct (Nat.ltb t1 t0) eqn:C; intros [= <- <-].
      * apply Nat.ltb_lt in C. split; [now right|].
        intros e' t' [[= <- <-]|I']; [lia|eauto].
      * apply Nat.ltb_ge in C. split; [now left|].
        intros e' t' [[= <- <-]|I']; [lia|].
        specialize (L e' t' I'). lia.
    + intros [= <- <-]. split; [now left|].
      intros e' t' [[= <- <-]|I']; [lia|].
      exfalso. exact (proj1 (first_rejection_None promises) R e' t' I').
  - intro E. destruct (IH e t E) as [I L]. split; [now right|].
    intros e' t' [X|I']; [discriminate|eauto].
Qed.

Lemma fulfilments_Some {A : Type} (promises : list (promise A)) :
  Forall fulfilled promises ->
  exists values, fulfilments promises = Some values
                 /\ map fst promises = map Fulfilled values.
Proof.
  induction 1 as [|[r t] promises (v & E) _ (values & F & M)].
  - now exists [].
  - simpl in E. subst r. exists (v :: values). cbn [fulfilments map fst].
    rewrite F, M. now split.
Qed.

Lemma fulfilments_fulfilled {A : Type} (promises : list (promise A))
    (values : list A) :
  fulfilments promises = Some values -> Forall fulfilled promises.
Proof.
  revert values.
  induction promises as [|[[v|e|] t] promises IH]; intro values;
    cbn [fulfilments]; try discriminate.
  - constructor.
  - destruct (fulfilments promises) as [values'|] eqn:F; [|discriminate].
    intros _. constructor; [now exists v|now apply (IH values')].
Qed.

Lemma promise_all_fulfilled {A : Type} (promises : list (promise A)) :
  Forall fulfilled promises ->
  exists values, promise_all promises = Fulfilled values
                 /\ map fst promises = map Fulfilled values.
Proof.
  intro A0. destruct (fulfilments_Some promises A0) as (values & F & M).
  exists values. split; [|exact M]. unfold promise_all.
  assert (R : first_rejection promises = None).
  { apply first_rejection_None. intros e t I.
    rewrite Forall_forall in A0. destruct (A0 _ I) as (v & E). discriminate. }
  now rewrite R, F.
Qed.

Lemma promise_all_inv {A : Type} (promises : list (promise A)) (values : list A) :
  promise_all promises = Fulfilled values -> Forall fulfilled promises.
Proof.
  unfold promise_all.
  destruct (first_rejection promises) as [[e t]|]; [discriminate|].
  destruct (fulfilments promises) as [values'|] eqn:F; [|discriminate].
  intros _. now apply (fulfilments_fulfilled promises values').
Qed.

Lemma filter_truthy_fulfilled (promises : list (promise val)) (values : list val) :
  map fst promises = map Fulfilled values ->
  length (filter truthy values) = length (filter fulfilled_truthy promises).
Proof.
  revert values. induction promises as [|[r t] promises IH]; intros [|v values];
    try discriminate; [reflexivity|].
  cbn [map fst]. intros [= -> M]. cbn [filter]. unfold fulfilled_truthy at 1.
  cbn [fst]. destruct (truthy v); cbn [length]; now rewrite (IH values M).
Qed.

(** When every callback promise is fulfilled the decision is a boolean:
    whether one of them is fulfilled with a truthy value. *)
Lemma decision_fulfilled (promises : list (promise val)) :
  Forall fulfilled promises ->
  decision promises = Fulfilled (VBool (existsb fulfilled_truthy promises)).
Proof.
  intro A. destruct (promise_all_fulfilled promises A) as (values & P & M).
  unfold decision. rewrite P. cbn [then_]. do 2 f_equal.
  rewrite (filter_truthy_fulfilled promises values M).
  clear. induction promises as [|p promises IH]; [reflexivity|].
  cbn [filter existsb]. destruct (fulfilled_truthy p); [reflexivity|exact IH].
Qed.

Lemma decision_inv (promises : list (promise val)) (v : val) :
  decision promises = Fulfilled v -> Forall fulfilled promises.
Proof.
  unfold decision.
  destruct (promise_all promises) as [values| |] eqn:P; try discriminate.
  intros _. now apply (promise_all_inv promises values).
Qed.


(** ** Facts about the filters *)

Lemma truthy_result_holds (r : result val) :
  truthy_result r = true <-> holds r.
Proof.
  unfold holds. destruct r as [v|e]; simpl.
  - split; [intro T; now exists v | now intros (v' & [= <-] & T)].
  - split; [discriminate | now intros (v' & E & _)].
Qed.

Lemma matches_model_iff (this : CanCan) (h : heap) (performer : val) (a : ability) :
  matches_model this h performer a = true <-> model_matches this h performer a.
Proof. apply truthy_result_holds. Qed.

Lemma matches_target_iff (this : CanCan) (h : heap) (target : val) (a : ability) :
  matches_target this h target a = true <-> target_matches this h target a.
Proof.
  unfold matches_target, target_matches.
  rewrite !orb_true_iff, strict_eq_string, truthy_result_holds. tauto.
Qed.

Lemma matches_action_iff (action : val) (a : ability) :
  matches_action action a = true <-> action_matches action a.
Proof.
  unfold matches_action, action_matches.
  rewrite orb_true_iff, strict_eq_string. tauto.
Qed.

Lemma passes_filters_iff (this : CanCan) (h : heap)
    (performer action target : val) (a : ability) :
  passes_filters this h performer action target a = true
  <-> model_matches this h performer a
      /\ target_matches this h target a
      /\ action_matches action a.
Proof.
  unfold passes_filters.
  rewrite !andb_true_iff, matches_model_iff, matches_target_iff,
    matches_action_iff. tauto.
Qed.

Lemma filter_js_Ok {A : Type} (f : A -> result val) (l kept : list A) :
  filter_js f l = Ok kept ->
  kept = filter (fun a => truthy_result (f a)) l
  /\ Forall (fun a => exists v, f a = Ok v) l.
Proof.
  revert kept. induction l as [|a l IH]; intro kept; cbn [filter_js filter].
  - intros [= <-]. now split.
  - destruct (f a) as [v|e] eqn:E; [|discriminate].
    destruct (filter_js f l) as [kept'|e]; [|discriminate].
    destruct (IH kept' eq_refl) as [-> All]. intros [= <-].
    split; [reflexivity|]. constructor; [now exists v|exact All].
Qed.

Lemma filter_js_total {A : Type} (f : A -> result val) (l : list A) :
  Forall (fun a => exists v, f a = Ok v) l ->
  filter_js f l = Ok (filter (fun a => truthy_result (f a)) l).
Proof.
  induction 1 as [|a l (v & E) _ IH]; [reflexivity|].
  cbn [filter_js filter]. rewrite E, IH. reflexivity.
Qed.

Lemma filter_filter {A : Type} (f g : A -> bool) (l : list A) :
  filter g (filter f l) = filter (fun a => f a && g a) l.
Proof.
  induction l as [|a l IH]; [reflexivity|].
  cbn [filter]. destruct (f a); cbn [filter andb]; now rewrite IH.
Qed.

Lemma filteredAbilities_Ok (this : CanCan) (h : heap)
    (performer action target : val) (filtered : list ability) :
  filteredAbilities this h performer action target = Ok filtered ->
  filtered = filter (passes_filters this h performer action target)
               (abilities this).
Proof.
  unfold filteredAbilities.
  destruct (filter_js _ (abilities this)) as [by_model|e] eqn:M; [|discriminate].
  destruct (filter_js _ by_model) as [by_target|e] eqn:T; [|discriminate].
  intros [= <-].
  apply filter_js_Ok in M. destruct M as [-> _].
  apply filter_js_Ok in T. destruct T as [-> _].
  rewrite !filter_filter. apply filter_ext. intro a.
  unfold passes_filters, matches_model, matches_target, matches_action.
  destruct (truthy_result (instanceOf this h performer (Ability.model a)));
    [|reflexivity].
  cbn [andb]. f_equal.
  destruct (strict_eq (Ability.target a) (VString "all")); [reflexivity|].
  destruct (strict_eq target (Ability.target a)); reflexivity.
Qed.

Lemma filter_split {A : Type} (f : A -> bool) (l pre' post' : list A) (r : A) :
  filter f l = pre' ++ r :: post' ->
  exists pre post, l = pre ++ r :: post /\ pre' = filter f pre
                   /\ post' = filter f post /\ f r = true.
Proof.
  revert pre'. induction l as [|a l IH]; intro pre'; cbn [filter].
  - destruct pre'; discriminate.
  - destruct (f a) eqn:F.
    + destruct pre' as [|b pre'].
      * intros [= -> <-]. exists [], l. cbn [filter app]. now repeat split.
      * intros [= <- E]. destruct (IH pre' E) as (pre & post & -> & -> & -> & R).
        exists (a :: pre), post. cbn [filter app]. rewrite F. now repeat split.
    + intro E. destruct (IH pre' E) as (pre & post & -> & -> & -> & R).
      exists (a :: pre), post. cbn [filter app]. rewrite F. now repeat split.
Qed.

Section Outcomes.

Variable H : host.

Lemma outcomes_app (h : heap) (performer target options : val) (k : nat)
    (l1 l2 : list ability) :
  outcomes H h performer target options k (l1 ++ l2)
  = outcomes H h performer target options k l1
    ++ outcomes H h performer target options (k + invocations l1) l2.
Proof.
  revert k. induction l1 as [|a l1 IH]; intro k.
  - unfold invocations. simpl. now rewrite Nat.add_0_r.
  - cbn [app outcomes]. rewrite IH. f_equal. f_equal. f_equal.
    unfold invocations. cbn [filter].
    destruct (has_condition a); cbn [length]; lia.
Qed.

(** The promises of the callbacks are those of the rules, each at its place
    among the invocations. *)
Lemma outcomes_In (h : heap) (performer target options : val) (k : nat)
    (l : list ability) (p : promise val) :
  In p (outcomes H h performer target options k l)
  <-> exists pre r post,
        l = pre ++ r :: post
        /\ p = outcome_at H h performer target options (k + invocations pre) r.
Proof.
  split.
  - revert k. induction l as [|a l IH]; intro k; cbn [outcomes]; [intros []|].
    intros [<-|I].
    + exists [], a, l. unfold invocations. simpl. now rewrite Nat.add_0_r.
    + destruct (IH _ I) as (pre & r & post & -> & ->).
      exists (a :: pre), r, post. split; [reflexivity|]. f_equal.
      unfold invocations. cbn [filter].
      destruct (has_condition a); cbn [length]; lia.
  - intros (pre & r & post & -> & ->). rewrite outcomes_app.
    apply in_or_app. right. cbn [outcomes]. now left.
Qed.

End Outcomes.

(** ** The claims about [can] *)

Lemma fulfilled_truthy_iff (p : promise val) :
  fulfilled_truthy p = true <-> exists v, fst p = Fulfilled v /\ truthy v = true.
Proof.
  unfold fulfilled_truthy. destruct (fst p) as [v|e|].
  - split; [intro T; now exists v | now intros (v' & [= <-] & T)].
  - split; [discriminate | now intros (v' & E & _)].
  - split; [discriminate | now intros (v' & E & _)].
Qed.

(** When a query returns [true]: it completes, and some rule passes the
    filters and, at its place among the invocations, its condition. *)
Lemma can_true_at (H : host) (performer action target options : val) (s : state) :
  fst (can H performer action target options s) = Fulfilled (VBool true)
  <-> completes H s performer action target options
      /\ exists pre r post,
           abilities (self s) = pre ++ r :: post
           /\ model_matches (self s) (st_heap s) performer r
           /\ target_matches (self s) (st_heap s) target r
           /\ action_matches action r
           /\ condition_passes H (st_heap s) performer target options
                (invocations
                   (filter (passes_filters (self s) (st_heap s)
                              performer action target) pre))
                r.
Proof.
  rewrite can_run. unfold completes.
  destruct (filteredAbilities (self s) (st_heap s) performer action target)
    as [filtered|e] eqn:F.
  2:{ cbn [fst]. split; [discriminate|]. intros [(filtered & [=] & _) _]. }
  cbn [fst].
  pose proof (filteredAbilities_Ok _ _ _ _ _ _ F) as Filtered.
  split.
  - intro D. pose proof (decision_inv _ _ D) as All.
    split; [now exists filtered|].
    rewrite (decision_fulfilled _ All) in D. injection D as D.
    apply existsb_exists in D. destruct D as (p & I & T).
    apply outcomes_In in I. destruct I as (pre' & r & post' & Split & ->).
    rewrite Filtered in Split.
    destruct (filter_split _ _ _ _ _ Split) as (pre & post & A & -> & -> & R).
    apply passes_filters_iff in R. destruct R as (R1 & R2 & R3).
    exists pre, r, post. repeat (split; [assumption|]).
    now apply fulfilled_truthy_iff.
  - intros [(filtered' & [= <-] & All) (pre & r & post & A & R1 & R2 & R3 & C)].
    rewrite (decision_fulfilled _ All). do 2 f_equal.
    apply existsb_exists.
    exists (outcome_at H (st_heap s) performer target options
              (invocations
                 (filter (passes_filters (self s) (st_heap s)
                            performer action target) pre)) r).
    split; [|now apply fulfilled_truthy_iff].
    apply outcomes_In.
    exists (filter (passes_filters (self s) (st_heap s) performer action target) pre),
      r,
      (filter (passes_filters (self s) (st_heap s) performer action target) post).
    split; [|reflexivity].
    rewrite Filtered, A, filter_app. cbn [filter].
    now rewrite (proj2 (passes_filters_iff _ _ _ _ _ r) (conj R1 (conj R2 R3))).
Qed.

(** A query returns a boolean exactly when it completes. *)
Lemma can_boolean_iff (H : host) (performer action target options : val)
    (s : state) :
  (exists b, fst (can H performer action target options s) = Fulfilled (VBool b))
  <-> completes H s performer action target options.
Proof.
  rewrite can_run. unfold completes.
  destruct (filteredAbilities (self s) (st_heap s) performer action target)
    as [filtered|e] eqn:F; cbn [fst].
  - split.
    + intros (b & D). exists filtered. split; [reflexivity|].
      exact (decision_inv _ _ D).
    + intros (filtered' & [= <-] & All).
      rewrite (decision_fulfilled _ All). eexists. reflexivity.
  - split; [intros (b & [=]) | intros (filtered & [=] & _)].
Qed.

(** C1, as amended.  [can] returns [true] if and only if the query completes
    and at least one declared rule satisfies all of: (1) [instanceOf] holds of
    the performer and the rule's model, (2) the rule's target is ["all"], or is
    the target, or [instanceOf] holds of the target and the rule's target,
    (3) the rule's action is ["manage"] or is the action, and (4) the rule has
    no condition, or its condition, applied to the performer, the target and
    [options || {}], resolves to a truthy value.  It returns a boolean exactly
    when the query completes.  The first part places the rule in the registry,
    as the [{}] handed to its condition is the one allocated at its turn; the
    last part is the same for conditions that do not depend on which [{}] they
    are handed. *)
Theorem can_true_iff :
  forall (H : host) (performer action target options : val) (s : state),
    (fst (can H performer action target options s) = Fulfilled (VBool true)
     <-> completes H s performer action target options
         /\ exists pre r post,
              abilities (self s) = pre ++ r :: post
              /\ model_matches (self s) (st_heap s) performer r
              /\ target_matches (self s) (st_heap s) target r
              /\ action_matches action r
              /\ condition_passes H (st_heap s) performer target options
                   (invocations
                      (filter (passes_filters (self s) (st_heap s)
                                 performer action target) pre))
                   r)
    /\ ((exists b, fst (can H performer action target options s)
                   = Fulfilled (VBool b))
        <-> completes H s performer action target options)
    /\ (position_independent H (st_heap s) performer target options
          (abilities (self s)) ->
        (fst (can H performer action target options s) = Fulfilled (VBool true)
         <-> completes H s performer action target options
             /\ exists r,
                  In r (abilities (self s))
                  /\ model_matches (self s) (st_heap s) performer r
                  /\ target_matches (self s) (st_heap s) target r
                  /\ action_matches action r
                  /\ condition_passes H (st_heap s) performer target options
                       0 r)).
Proof.
  intros H performer action target options s.
  split; [apply can_true_at|]. split; [apply can_boolean_iff|].
  intro Ind. rewrite can_true_at.
  split; intros [C Rule]; (split; [exact C|]).
  - destruct Rule as (pre & r & post & A & R1 & R2 & R3 & P).
    assert (I : In r (abilities (self s))) by (rewrite A; apply in_elt).
    exists r. repeat (split; [assumption|]).
    unfold condition_passes in *.
    now rewrite (Ind r 0
                   (invocations
                      (filter (passes_filters (self s) (st_heap s)
                                 performer action target) pre)) I).
  - destruct Rule as (r & I & R1 & R2 & R3 & P).
    destruct (in_split _ _ I) as (pre & post & A).
    exists pre, r, post. repeat (split; [assumption|]).
    unfold condition_passes in *.
    now rewrite (Ind r
                   (invocations
                      (filter (passes_filters (self s) (st_heap s)
                                 performer action target) pre)) 0 I).
Qed.

(** C1 as stated fails in both directions.  Where a rule without a condition
    matches and the condition of another matching rule throws, a rule satisfies
    (1)-(4) and yet [can] is rejected.  Where the only rule has a condition that
    resolves to [1], no rule has a condition that resolves to [true] and yet
    [can] returns [true]. *)
Lemma can_true_iff_counterexample :
  ~ (fst (can Scenario.program Scenario.user Scenario.read Scenario.product
            VUndefined Scenario.with_throwing_rule)
     = Fulfilled (VBool true)
     <-> exists r k,
           In r (abilities (self Scenario.with_throwing_rule))
           /\ model_matches (self Scenario.with_throwing_rule)
                (st_heap Scenario.with_throwing_rule) Scenario.user r
           /\ target_matches (self Scenario.with_throwing_rule)
                (st_heap Scenario.with_throwing_rule) Scenario.product r
           /\ action_matches Scenario.read r
           /\ condition_resolves_to_true Scenario.program
                (st_heap Scenario.with_throwing_rule) Scenario.user
                Scenario.product VUndefined k r)
  /\ ~ (fst (can Scenario.program Scenario.user Scenario.read Scenario.product
               VUndefined Scenario.with_number_rule)
        = Fulfilled (VBool true)
        <-> exists r k,
              In r (abilities (self Scenario.with_number_rule))
              /\ model_matches (self Scenario.with_number_rule)
                   (st_heap Scenario.with_number_rule) Scenario.user r
              /\ target_matches (self Scenario.with_number_rule)
                   (st_heap Scenario.with_number_rule) Scenario.product r
              /\ action_matches Scenario.read r
              /\ condition_resolves_to_true Scenario.program
                   (st_heap Scenario.with_number_rule) Scenario.user
                   Scenario.product VUndefined k r).
Proof.
  split.
  - intros [_ Back].
    assert (R : fst (can Scenario.program Scenario.user Scenario.read
                       Scenario.product VUndefined Scenario.with_throwing_rule)
                = Rejected (Thrown (VString "boom"))) by reflexivity.
    rewrite R in Back.
    enough (E : @Rejected val (Thrown (VString "boom")) = Fulfilled (VBool true))
      by discriminate E.
    apply Back.
    exists {| Ability.model := Scenario.User; Ability.action := Scenario.read;
              Ability.target := Scenario.Product;
              Ability.condition := VUndefined |}, 0.
    split; [now left|]. split.
    { exists (VBool true). now split. }
    split.
    { right. right. exists (VBool true). now split. }
    split.
    { now right. }
    now left.
  - intros [Forth _].
    destruct (Forth eq_refl) as (r & k & [<-|[]] & _ & _ & _ & [C|C]);
      discriminate C.
Qed.

(** A condition that resolves to [1] grants access as one that resolves to
    [true] does. *)
Example can_truthy_condition :
  fst (can Scenario.program Scenario.user Scenario.read Scenario.product
         VUndefined Scenario.with_number_rule)
  = Fulfilled (VBool true).
Proof. reflexivity. Qed.

Lemma can_boolean (H : host) (performer action target options : val)
    (s : state) (v : val) :
  fst (can H performer action target options s) = Fulfilled v ->
  exists b, v = VBool b.
Proof.
  rewrite can_run.
  destruct (filteredAbilities (self s) (st_heap s) performer action target)
    as [filtered|e]; [|discriminate].
  cbn [fst]. unfold decision.
  destruct (then_ (promise_all _) (filter truthy)) as [passed| |];
    try discriminate.
  cbn [then_]. intros [= <-]. eexists. reflexivity.
Qed.

Lemma can_self (H : host) (performer action target options : val) (s : state) :
  self (snd (can H performer action target options s)) = self s.
Proof.
  rewrite can_run.
  destruct (filteredAbilities (self s) (st_heap s) performer action target);
    reflexivity.
Qed.

(** ** The claims about [cannot] and [authorize] *)

(** C5.  [cannot] settles as [can] does on the same arguments, with the
    boolean negated: when [can] returns [b], [cannot] returns [not b]; when
    [can] is rejected or never settles, so is [cannot], with the same error;
    and [cannot] leaves the machine in the state [can] leaves it in, having
    invoked the same conditions on the same arguments.  This holds for every
    host, that is also for conditions that return promises. *)
Theorem cannot_is_complement :
  forall (H : host) (arguments : list val) (s : state),
    snd (cannot H arguments s) = snd (can_apply H arguments s)
    /\ ((exists b, fst (can_apply H arguments s) = Fulfilled (VBool b)
                   /\ fst (cannot H arguments s) = Fulfilled (VBool (negb b)))
        \/ (exists e, fst (can_apply H arguments s) = Rejected e
                      /\ fst (cannot H arguments s) = Rejected e)
        \/ (fst (can_apply H arguments s) = Pending
            /\ fst (cannot H arguments s) = Pending))
    /\ (forall performer action target options,
           can_apply H [performer; action; target; options] s
           = can H performer action target options s).
Proof.
  intros H arguments s. unfold cannot.
  destruct (can_apply H arguments s) as [awaited s'] eqn:C. cbn [fst snd].
  split; [reflexivity|]. split; [|reflexivity].
  destruct awaited as [v|e|].
  - left. unfold can_apply in C.
    destruct (can_boolean H (nth 0 arguments VUndefined)
                (nth 1 arguments VUndefined) (nth 2 arguments VUndefined)
                (nth 3 arguments VUndefined) s v) as (b & ->);
      [now rewrite C|].
    exists b. now split.
  - right. left. exists e. now split.
  - right. right. now split.
Qed.


(** The two cases of C6 on the program of the test suite: a product that is
    not published, then one that is. *)
Example authorize_denied :
  fst (authorize Scenario.program
         [Scenario.user; Scenario.read; Scenario.product]
         Scenario.published_rule)
  = Rejected (NativeError "Error" "Authorization error").
Proof. reflexivity. Qed.

Example authorize_granted :
  fst (authorize Scenario.program
         [Scenario.user; Scenario.read; Scenario.publicProduct]
         Scenario.published_rule)
  = Fulfilled VUndefined.
Proof. reflexivity. Qed.

(** ** The claim about failing conditions *)





(** ** The claim about the options *)

Lemma events_truthy (h : heap) (performer target options : val) (k : nat)
    (l : list ability) :
  truthy options = true ->
  Forall (fun c => args c = [performer; target; options])
         (events h performer target options k l).
Proof.
  intro T. revert k. induction l as [|a l IH]; intro k; cbn [events].
  - constructor.
  - destruct (has_condition a); [|apply IH].
    constructor; [|apply IH]. cbn [args]. unfold options_at. now rewrite T.
Qed.

Lemma events_falsy (h : heap) (performer target options : val) (k : nat)
    (l : list ability) :
  truthy options = false ->
  map args (events h performer target options k l)
  = map (fun i => [performer; target; VRef (length h + i)])
        (seq k (invocations l)).
Proof.
  intro F. revert k. induction l as [|a l IH]; intro k;
    unfold invocations; cbn [events filter]; [reflexivity|].
  destruct (has_condition a); [|apply IH].
  cbn [map args length seq]. unfold options_at. rewrite F. f_equal. apply IH.
Qed.

Lemma events_callee (h : heap) (performer target options : val) (k : nat)
    (l : list ability) :
  map callee (events h performer target options k l)
  = map Ability.condition (filter has_condition l).
Proof.
  revert k. induction l as [|a l IH]; intro k; cbn [events filter];
    [reflexivity|].
  destruct (has_condition a); [|apply IH].
  cbn [map callee]. f_equal. apply IH.
Qed.

Lemma NoDup_map_seq {A : Type} (f : nat -> A) (k n : nat) :
  (forall i j, f i = f j -> i = j) -> NoDup (map f (seq k n)).
Proof.
  intro Inj. revert k. induction n as [|n IH]; intro k; cbn [seq map].
  - constructor.
  - constructor; [|apply IH].
    intro I. apply in_map_iff in I. destruct I as (j & E & J).
    apply Inj in E. subst j. apply in_seq in J. lia.
Qed.

Lemma can_state (H : host) (performer action target options : val) (s : state) :
  snd (cannot H [performer; action; target; options] s)
  = snd (can H performer action target options s)
  /\ snd (authorize H [performer; action; target; options] s)
     = snd (can H performer action target options s).
Proof.
  unfold authorize, cannot, can_apply. cbn [nth].
  destruct (can H performer action target options s) as [awaited s'].
  now split.
Qed.

Lemma conditionCallback_given (H : host) (performer target options : val)
    (r : ability) (s0 : state) :
  has_condition r = true ->
  conditionCallback H performer target options r s0
  = (promise_of H
       (call H (if truthy options then st_heap s0
                else st_heap s0 ++ [empty_object])
          (Ability.condition r) (OnAbility r)
          [performer; target;
           if truthy options then options else VRef (length (st_heap s0))]),
     queried s0
       (if truthy options then st_heap s0 else st_heap s0 ++ [empty_object])
       [{| callee := Ability.condition r;
           args := [performer; target;
                    if truthy options then options
                    else VRef (length (st_heap s0))] |}]).
Proof.
  unfold has_condition, conditionCallback. intros ->.
  unfold options_or_empty. destruct (truthy options); reflexivity.
Qed.

Lemma length_outcomes (H : host) (h : heap) (performer target options : val)
    (k : nat) (l : list ability) :
  length (outcomes H h performer target options k l) = length l.
Proof.
  revert k. induction l as [|a l IH]; intro k; [reflexivity|].
  cbn [outcomes length]. now rewrite IH.
Qed.

(** The promises from which a query decides: one for each rule that passed
    the filters, in order, each the promise of the call of its condition. *)
Lemma can_promises (H : host) (performer action target options : val)
    (s : state) (filtered : list ability) :
  filteredAbilities (self s) (st_heap s) performer action target = Ok filtered ->
  exists promises : list (promise val),
    map_js (conditionCallback H performer target options) filtered s
    = (promises, snd (can H performer action target options s))
    /\ fst (can H performer action target options s) = decision promises
    /\ length promises = length filtered
    /\ forall pre r post,
         filtered = pre ++ r :: post ->
         nth_error promises (length pre)
         = Some
             (if has_condition r
              then promise_of H
                     (call H
                        (if truthy options then st_heap s
                         else st_heap s
                                ++ repeat empty_object (S (invocations pre)))
                        (Ability.condition r) (OnAbility r)
                        [performer; target;
                         if truthy options then options
                         else VRef (length (st_heap s) + invocations pre)])
              else (Fulfilled (VBool true), 0)).
Proof.
  intro F. rewrite can_run, F. cbn [fst snd].
  exists (outcomes H (st_heap s) performer target options 0 filtered).
  split.
  { rewrite (map_js_conditionCallback H _ _ _ _ _ (st_heap s) 0).
    - reflexivity.
    - unfold heap_before. destruct (truthy options); [reflexivity|].
      simpl. now rewrite app_nil_r. }
  split; [reflexivity|]. split; [apply length_outcomes|].
  intros pre r post ->. rewrite outcomes_app.
  rewrite nth_error_app2 by (rewrite length_outcomes; lia).
  rewrite length_outcomes, Nat.sub_diag. reflexivity.
Qed.

(** C9.  The callback of lines 73-79 calls the condition of a rule that has
    one with the performer, the target and a third argument: the caller's
    [options] when they are truthy, and otherwise (omitted, [undefined],
    [null], [false], [0], [NaN], ['']) an object that it has just allocated,
    which was not in the heap before and is empty; the promise of the callback
    is the one of that call.  A query runs the callback on the rules that
    passed the filters, in order, and decides from their promises: with falsy
    [options] the [k]-th condition invoked is called with the [k]-th object
    allocated by the query, so no two are given the same one, and what was in
    the heap stays.  [cannot] and [authorize] do the same, as they run
    [can]. *)
Theorem options_default :
  forall (H : host) (performer action target options : val) (s : state),
    (forall (r : ability) (s0 : state),
        has_condition r = true ->
        exists (given : val) (s1 : state),
          conditionCallback H performer target options r s0
          = (promise_of H
               (call H (st_heap s1) (Ability.condition r) (OnAbility r)
                  [performer; target; given]),
             s1)
          /\ self s1 = self s0
          /\ st_calls s1
             = st_calls s0
                 ++ [{| callee := Ability.condition r;
                        args := [performer; target; given] |}]
          /\ (truthy options = true ->
              given = options /\ st_heap s1 = st_heap s0)
          /\ (truthy options = false ->
              given = VRef (length (st_heap s0))
              /\ st_heap s1 = st_heap s0 ++ [empty_object]
              /\ nth_error (st_heap s0) (length (st_heap s0)) = None
              /\ nth_error (st_heap s1) (length (st_heap s0))
                 = Some empty_object))
    /\ (forall (r : ability) (s0 : state),
           has_condition r = false ->
           conditionCallback H performer target options r s0
           = ((Fulfilled (VBool true), 0), s0))
    /\ (forall filtered,
           filteredAbilities (self s) (st_heap s) performer action target
           = Ok filtered ->
           exists promises : list (promise val),
             map_js (conditionCallback H performer target options) filtered s
             = (promises, snd (can H performer action target options s))
             /\ fst (can H performer action target options s)
                = decision promises
             /\ length promises = length filtered
             /\ forall pre r post,
                  filtered = pre ++ r :: post ->
                  nth_error promises (length pre)
                  = Some
                      (if has_condition r
                       then promise_of H
                              (call H
                                 (if truthy options then st_heap s
                                  else st_heap s
                                         ++ repeat empty_object
                                              (S (invocations pre)))
                                 (Ability.condition r) (OnAbility r)
                                 [performer; target;
                                  if truthy options then options
                                  else VRef (length (st_heap s)
                                             + invocations pre)])
                       else (Fulfilled (VBool true), 0)))
    /\ (exists calls : list call_event,
          st_calls (snd (can H performer action target options s))
          = st_calls s ++ calls
          /\ (forall filtered,
                 filteredAbilities (self s) (st_heap s) performer action target
                 = Ok filtered ->
                 map callee calls
                 = map Ability.condition (filter has_condition filtered))
          /\ (truthy options = true ->
              st_heap (snd (can H performer action target options s))
              = st_heap s
              /\ Forall (fun c => args c = [performer; target; options]) calls)
          /\ (truthy options = false ->
              Forall (fun c =>
                        exists l,
                          args c = [performer; target; VRef l]
                          /\ nth_error (st_heap s) l = None
                          /\ nth_error
                               (st_heap
                                  (snd (can H performer action target options s)))
                               l
                             = Some empty_object)
                     calls
              /\ NoDup (map args calls)
              /\ (forall l x,
                     nth_error (st_heap s) l = Some x ->
                     nth_error
                       (st_heap (snd (can H performer action target options s)))
                       l
                     = Some x)))
    /\ snd (cannot H [performer; action; target; options] s)
       = snd (can H performer action target options s)
    /\ snd (authorize H [performer; action; target; options] s)
       = snd (can H performer action target options s)
    /\ can_apply H [performer; action; target] s
       = can H performer action target VUndefined s.
Proof.
  intros H performer action target options s.
  split.
  { intros r s0 C. rewrite (conditionCallback_given H _ _ _ _ _ C).
    exists (if truthy options then options else VRef (length (st_heap s0))).
    exists (queried s0
              (if truthy options then st_heap s0
               else st_heap s0 ++ [empty_object])
              [{| callee := Ability.condition r;
                  args := [performer; target;
                           if truthy options then options
                           else VRef (length (st_heap s0))] |}]).
    split; [reflexivity|].
    cbn [queried self st_calls st_heap].
    split; [reflexivity|]. split; [reflexivity|].
    destruct (truthy options).
    - split; [now split | discriminate].
    - split; [discriminate|]. intros _.
      split; [reflexivity|]. split; [reflexivity|]. split.
      + apply nth_error_None. lia.
      + rewrite nth_error_app2 by lia. now rewrite Nat.sub_diag. }
  split.
  { intros r s0 C. unfold has_condition in C. unfold conditionCallback.
    now rewrite C. }
  split.
  { intros filtered F. now apply can_promises. }
  destruct (can_state H performer action target options s) as [N A].
  split; [|split; [exact N | split; [exact A | reflexivity]]].
  rewrite can_run.
  destruct (filteredAbilities (self s) (st_heap s) performer action target)
    as [filtered|e].
  - exists (events (st_heap s) performer target options 0 filtered).
    cbn [snd queried st_calls st_heap].
    split; [reflexivity|]. split.
    { intros filtered' [= <-]. apply events_callee. }
    split.
    { intro T. split; [|now apply events_truthy].
      unfold heap_before. now rewrite T. }
    intro F. unfold heap_before. rewrite F. split; [|split].
    + apply Forall_forall. intros c I.
      apply (in_map args) in I. rewrite (events_falsy _ _ _ _ _ _ F) in I.
      apply in_map_iff in I. destruct I as (i & E & I). apply in_seq in I.
      exists (length (st_heap s) + i). split; [now symmetry|]. split.
      * apply nth_error_None. lia.
      * rewrite nth_error_app2 by lia.
        replace (length (st_heap s) + i - length (st_heap s)) with i by lia.
        apply nth_error_repeat. lia.
    + rewrite (events_falsy _ _ _ _ _ _ F). apply NoDup_map_seq.
      intros i j [= E]. lia.
    + intros l x L. rewrite nth_error_app1; [exact L|].
      apply nth_error_Some. congruence.
  - exists []. cbn [snd]. rewrite app_nil_r.
    split; [reflexivity|]. split; [discriminate|]. split.
    { intros _. split; [reflexivity|constructor]. }
    intros _. split; [constructor|]. split; [constructor|]. auto.
Qed.

(** C9 on the program of the test suite: a condition that reads
    [options.fields] is given [{}] when the options are omitted and the
    caller's object when there is one.  Called with [undefined] it would
    throw; the query answers [false]. *)
Example options_omitted :
  let s := Scenario.after
             (allow Scenario.User Scenario.read Scenario.Product (VRef 20))
             Scenario.fresh in
  st_calls (snd (can Scenario.program Scenario.user Scenario.read
                   Scenario.product VUndefined s))
  = [{| callee := VRef 20;
        args := [Scenario.user; Scenario.product; VRef 22] |}]
  /\ nth_error (st_heap s) 22 = None
  /\ nth_error (st_heap (snd (can Scenario.program Scenario.user Scenario.read
                                Scenario.product VUndefined s))) 22
     = Some empty_object
  /\ st_calls (snd (can Scenario.program Scenario.user Scenario.read
                      Scenario.product (VRef 21) s))
     = [{| callee := VRef 20;
           args := [Scenario.user; Scenario.product; VRef 21] |}]
  /\ call Scenario.program (st_heap s) (VRef 20) (OnValue VUndefined)
       [Scenario.user; Scenario.product; VUndefined]
     = Throw (NativeError "TypeError"
                "Cannot read properties of undefined or null")
  /\ fst (can Scenario.program Scenario.user Scenario.read Scenario.product
            VUndefined s)
     = Fulfilled (VBool false)
  /\ fst (can Scenario.program Scenario.user Scenario.read Scenario.product
            (VRef 21) s)
     = Fulfilled (VBool true).
Proof. repeat split. Qed.

(** ** The claim about the empty attribute map *)

(** The function stored for a map without keys passes, wherever among the
    invocations of a query it is called. *)
Lemma empty_map_outcome (H : host) (h : heap) (fn m : val) :
  closure_of h fn = Some (ConditionFn m) ->
  object_keys h m = Ok [] ->
  forall (model action target performer query_target options : val) (k : nat),
    outcome_at H h performer query_target options k
      {| Ability.model := model; Ability.action := action;
         Ability.target := target; Ability.condition := fn |}
    = (Fulfilled (VBool true), 0).
Proof.
  intros Fn Keys model action target performer query_target options k.
  assert (T : truthy fn = true) by (destruct fn; try discriminate Fn; reflexivity).
  unfold outcome_at, has_condition. cbn [Ability.condition]. rewrite T.
  destruct (heap_before_extends h options (S k)) as (h' & E & _).
  unfold heap_at.
  assert (Fn' : closure_of (heap_before h options (S k)) fn
                = Some (ConditionFn m)).
  { rewrite E. now apply closure_of_extend. }
  assert (Keys' : object_keys (heap_before h options (S k)) m = Ok []).
  { unfold heap_before. destruct (truthy options); [exact Keys|].
    now apply object_keys_empty_extend. }
  rewrite (call_ConditionFn H _ _ m _ _ Fn').
  unfold isPartiallyEqual. rewrite Keys'. reflexivity.
Qed.

(** C10.  [allow] accepts the empty attribute map [{}] and stores a
    function for it.  As long as the map has no key, the callback of lines
    73-79 returns for a rule with that function the promise that it returns
    for the same rule without a condition, fulfilled with [true], for every
    performer, target (even [undefined]) and options; and a query that
    completes answers [true] as soon as such a rule, like one without a
    condition, passes the model, target and action filters. *)
Theorem empty_attribute_map :
  forall (H : host) (model actions targets m : val) (s : state),
    isObject (st_heap s) m = true ->
    object_keys (st_heap s) m = Ok [] ->
    exists (fn : val) (s' : state),
      allow model actions targets m s = (Ok tt, s')
      /\ abilities (self s')
         = abilities (self s)
             ++ declared model (arrify (st_heap s) actions)
                  (arrify (st_heap s) targets) fn
      /\ closure_of (st_heap s') fn = Some (ConditionFn m)
      /\ object_keys (st_heap s') m = Ok []
      /\ (forall (s0 : state)
                 (action target performer query_target options : val),
             closure_of (st_heap s0) fn = Some (ConditionFn m) ->
             object_keys (st_heap s0) m = Ok [] ->
             fst (conditionCallback H performer query_target options
                    {| Ability.model := model; Ability.action := action;
                       Ability.target := target; Ability.condition := fn |}
                    s0)
             = (Fulfilled (VBool true), 0)
             /\ fst (conditionCallback H performer query_target options
                       {| Ability.model := model; Ability.action := action;
                          Ability.target := target; Ability.condition := fn |}
                       s0)
                = fst (conditionCallback H performer query_target options
                         {| Ability.model := model; Ability.action := action;
                            Ability.target := target;
                            Ability.condition := VUndefined |}
                         s0))
      /\ (forall (s1 : state)
                 (action target performer query_action query_target options
                    c : val),
             c = fn \/ c = VUndefined ->
             closure_of (st_heap s1) fn = Some (ConditionFn m) ->
             object_keys (st_heap s1) m = Ok [] ->
             In {| Ability.model := model; Ability.action := action;
                   Ability.target := target; Ability.condition := c |}
                (abilities (self s1)) ->
             model_matches (self s1) (st_heap s1) performer
               {| Ability.model := model; Ability.action := action;
                  Ability.target := target; Ability.condition := c |} ->
             target_matches (self s1) (st_heap s1) query_target
               {| Ability.model := model; Ability.action := action;
                  Ability.target := target; Ability.condition := c |} ->
             action_matches query_action
               {| Ability.model := model; Ability.action := action;
                  Ability.target := target; Ability.condition := c |} ->
             completes H s1 performer query_action query_target options ->
             fst (can H performer query_action query_target options s1)
             = Fulfilled (VBool true)).
Proof.
  intros H model actions targets m s Plain Empty.
  pose proof (allow_run model actions targets m s) as Run.
  assert (Good : rejected_condition (st_heap s) m = false).
  { unfold rejected_condition. rewrite Plain. simpl. apply andb_false_r. }
  rewrite Good in Run. unfold stored_condition, heap_after_allow in Run.
  rewrite Plain in Run.
  exists (VRef (length (st_heap s))). eexists. split; [exact Run|].
  split; [reflexivity|]. split.
  { cbn [pushed st_heap]. unfold closure_of.
    rewrite nth_error_app2 by lia. now rewrite Nat.sub_diag. }
  split.
  { cbn [pushed st_heap].
    destruct (isObject_ref _ _ Plain) as (l & o & -> & L & _).
    simpl in *. rewrite (nth_error_alloc _ _ _ _ L). now rewrite L in Empty. }
  split.
  - intros s0 action target performer query_target options Fn Keys.
    assert (Start : st_heap s0 = heap_before (st_heap s0) options 0).
    { unfold heap_before. destruct (truthy options); [reflexivity|].
      simpl. now rewrite app_nil_r. }
    rewrite !(conditionCallback_run H _ _ _ _ _ (st_heap s0) 0 Start).
    cbn [fst]. rewrite (empty_map_outcome H _ _ _ Fn Keys).
    split; reflexivity.
  - intros s1 action target performer query_action query_target options c
      Which Fn Keys Declared R1 R2 R3 Completes.
    apply can_true_at. split; [exact Completes|].
    destruct (in_split _ _ Declared) as (pre & post & Split).
    exists pre, {| Ability.model := model; Ability.action := action;
                   Ability.target := target; Ability.condition := c |}, post.
    repeat (split; [assumption|]).
    exists (VBool true). split; [|reflexivity].
    destruct Which as [-> | ->].
    + now rewrite (empty_map_outcome H _ _ _ Fn Keys).
    + reflexivity.
Qed.

(** On the test suite's program: after [allow(User, 'read', Product, {})] a
    user can read a product. *)
Lemma empty_attribute_map_witness :
  isObject (st_heap Scenario.fresh) (VRef 7) = true
  /\ object_keys (st_heap Scenario.fresh) (VRef 7) = Ok []
  /\ exists (fn : val) (s' : state),
       allow Scenario.User Scenario.read Scenario.Product (VRef 7) Scenario.fresh
       = (Ok tt, s')
       /\ closure_of (st_heap s') fn = Some (ConditionFn (VRef 7))
       /\ fst (conditionCallback Scenario.program Scenario.user
                 Scenario.product VUndefined
                 {| Ability.model := Scenario.User;
                    Ability.action := Scenario.read;
                    Ability.target := Scenario.Product;
                    Ability.condition := fn |} s')
          = (Fulfilled (VBool true), 0)
       /\ fst (can Scenario.program Scenario.user Scenario.read
                 Scenario.product VUndefined s')
          = Fulfilled (VBool true).
Proof.
  split; [reflexivity|]. split; [reflexivity|].
  destruct (empty_attribute_map Scenario.program Scenario.User Scenario.read
              Scenario.Product (VRef 7) Scenario.fresh eq_refl eq_refl)
    as (fn & s' & Run & Rules & Fn & Keys & Callback & Query).
  exists fn, s'. split; [exact Run|]. split; [exact Fn|]. split.
  { exact (proj1 (Callback s' Scenario.read Scenario.Product Scenario.user
                    Scenario.product VUndefined Fn Keys)). }
  assert (S : s' = Scenario.after
                     (allow Scenario.User Scenario.read Scenario.Product (VRef 7))
                     Scenario.fresh).
  { unfold Scenario.after. now rewrite Run. }
  apply (Query s' Scenario.read Scenario.Product Scenario.user Scenario.read
           Scenario.product VUndefined fn (or_introl eq_refl) Fn Keys).
  - rewrite Rules. apply in_or_app. right. now left.
  - rewrite S. exists (VBool true). now split.
  - rewrite S. right. right. exists (VBool true). now split.
  - right. reflexivity.
  - rewrite S.
    exists [{| Ability.model := Scenario.User; Ability.action := Scenario.read;
               Ability.target := Scenario.Product;
               Ability.condition := VRef 22 |}].
    split; [reflexivity|].
    constructor; [|constructor]. now exists (VBool true).
Defined.

(** ** The claim about the order of the rules *)

Lemma filter_Permutation {A : Type} (f : A -> bool) (l l' : list A) :
  Permutation l l' -> Permutation (filter f l) (filter f l').
Proof.
  induction 1 as [|a l l' _ IH|a b l|l l' l'' _ IH _ IH'].
  - constructor.
  - cbn [filter]. destruct (f a); [now constructor|exact IH].
  - cbn [filter]. destruct (f a), (f b); try apply Permutation_refl.
    apply perm_swap.
  - now transitivity (filter f l').
Qed.

Lemma existsb_Permutation {A : Type} (f : A -> bool) (l l' : list A) :
  Permutation l l' -> existsb f l = existsb f l'.
Proof.
  intro P. apply eq_true_iff_eq. rewrite !existsb_exists.
  split; intros (x & I & F); exists x; split; trivial.
  - now apply (Permutation_in _ P).
  - now apply (Permutation_in _ (Permutation_sym P)).
Qed.

Lemma filter_js_Permutation {A : Type} (f : A -> result val)
    (l l' kept : list A) :
  Permutation l l' -> filter_js f l = Ok kept ->
  exists kept', filter_js f l' = Ok kept' /\ Permutation kept kept'.
Proof.
  intros P F. apply filter_js_Ok in F. destruct F as [-> All].
  exists (filter (fun a => truthy_result (f a)) l'). split.
  - apply filter_js_total. now rewrite <- P.
  - now apply filter_Permutation.
Qed.

Lemma filteredAbilities_Permutation (this this' : CanCan) (h : heap)
    (performer action target : val) (filtered : list ability) :
  instanceOf this' = instanceOf this ->
  Permutation (abilities this) (abilities this') ->
  filteredAbilities this h performer action target = Ok filtered ->
  exists filtered',
    filteredAbilities this' h performer action target = Ok filtered'
    /\ Permutation filtered filtered'.
Proof.
  intros Same P. unfold filteredAbilities. rewrite Same.
  destruct (filter_js _ (abilities this)) as [by_model|e] eqn:M; [|discriminate].
  destruct (filter_js_Permutation _ _ _ _ P M) as (by_model' & -> & P1).
  destruct (filter_js _ by_model) as [by_target|e] eqn:T; [|discriminate].
  destruct (filter_js_Permutation _ _ _ _ P1 T) as (by_target' & -> & P2).
  intros [= <-]. eexists. split; [reflexivity|].
  now apply filter_Permutation.
Qed.

Lemma outcomes_independent (H : host) (h : heap)
    (performer target options : val) (k : nat) (l : list ability) :
  position_independent H h performer target options l ->
  outcomes H h performer target options k l
  = map (outcome_at H h performer target options 0) l.
Proof.
  revert k. induction l as [|a l IH]; intros k Ind; [reflexivity|].
  cbn [outcomes map]. f_equal.
  - apply Ind. now left.
  - apply IH. intros b i j I. apply Ind. now right.
Qed.

(** With options of the caller's own nothing is allocated, and every
    condition is independent of its position. *)
Lemma position_independent_truthy (H : host) (h : heap)
    (performer target options : val) (l : list ability) :
  truthy options = true ->
  position_independent H h performer target options l.
Proof.
  intros T a k k' _. unfold outcome_at, heap_at, heap_before, options_at.
  now rewrite T.
Qed.

(** C8.  Whenever a query yields a result, the query on the same machine
    with the rules of the registry in any other order yields the same result,
    for conditions whose outcome does not depend on which fresh [{}] they are
    handed. *)
Theorem can_order_independent :
  forall (H : host) (performer action target options : val) (s : state)
         (rules : list ability) (v : val),
    Permutation (abilities (self s)) rules ->
    position_independent H (st_heap s) performer target options
      (abilities (self s)) ->
    fst (can H performer action target options s) = Fulfilled v ->
    fst (can H performer action target options (reordered s rules))
    = Fulfilled v.
Proof.
  intros H performer action target options s rules v P Ind.
  rewrite !can_run. cbn [reordered self st_heap].
  destruct (filteredAbilities (self s) (st_heap s) performer action target)
    as [filtered|e] eqn:F; [|discriminate].
  destruct (filteredAbilities_Permutation (self s)
              {| abilities := rules; instanceOf := instanceOf (self s);
                 createError := createError (self s) |}
              (st_heap s) performer action target filtered eq_refl P F)
    as (filtered' & -> & P').
  cbn [fst].
  pose proof (filteredAbilities_Ok _ _ _ _ _ _ F) as Filtered.
  assert (Sub : forall a, In a filtered -> In a (abilities (self s))).
  { intros a I. rewrite Filtered in I. now apply filter_In in I. }
  rewrite (outcomes_independent H _ _ _ _ 0 filtered)
    by (intros a i j I; apply Ind; now apply Sub).
  rewrite (outcomes_independent H _ _ _ _ 0 filtered')
    by (intros a i j I; apply Ind, Sub;
        now apply (Permutation_in _ (Permutation_sym P'))).
  intro D. pose proof (decision_inv _ _ D) as All.
  assert (PM : Permutation
                 (map (outcome_at H (st_heap s) performer target options 0)
                      filtered)
                 (map (outcome_at H (st_heap s) performer target options 0)
                      filtered'))
    by now apply Permutation_map.
  rewrite (decision_fulfilled _ All) in D.
  rewrite decision_fulfilled by now rewrite <- PM.
  now rewrite <- (existsb_Permutation _ _ _ PM).
Qed.

(** On the test suite's program: two rules, taken in reverse order, with the
    options omitted. *)
Lemma can_order_independent_witness :
  Permutation (abilities (self Scenario.with_number_and_plain_rule))
    (rev (abilities (self Scenario.with_number_and_plain_rule)))
  /\ position_independent Scenario.program
       (st_heap Scenario.with_number_and_plain_rule)
       Scenario.user Scenario.product VUndefined
       (abilities (self Scenario.with_number_and_plain_rule))
  /\ fst (can Scenario.program Scenario.user Scenario.read Scenario.product
            VUndefined Scenario.with_number_and_plain_rule)
     = Fulfilled (VBool true)
  /\ fst (can Scenario.program Scenario.user Scenario.read Scenario.product
            VUndefined
            (reordered Scenario.with_number_and_plain_rule
               (rev (abilities (self Scenario.with_number_and_plain_rule)))))
     = Fulfilled (VBool true).
Proof.
  assert (Ind : position_independent Scenario.program
                  (st_heap Scenario.with_number_and_plain_rule)
                  Scenario.user Scenario.product VUndefined
                  (abilities (self Scenario.with_number_and_plain_rule))).
  { intros a k k' [<-|[<-|[]]]; reflexivity. }
  split; [apply Permutation_rev|]. split; [exact Ind|].
  split; [reflexivity|].
  exact (can_order_independent Scenario.program Scenario.user Scenario.read
           Scenario.product VUndefined Scenario.with_number_and_plain_rule
           (rev (abilities (self Scenario.with_number_and_plain_rule)))
           (VBool true) (Permutation_rev _) Ind eq_refl).
Defined.

(** ** The test suite, replayed on the model *)

Section Replay.

Import Scenario.

Let can' (s : state) (performer action target : val) : settled val :=
  fst (can program performer action target VUndefined s).

(** allow one action *)
Example test_allow_one_action :
  can' one_rule user read product = Fulfilled (VBool true)
  /\ fst (cannot program [user; read; product] one_rule) = Fulfilled (VBool false)
  /\ can' one_rule user (VString "create") product = Fulfilled (VBool false).
Proof. repeat split. Qed.

(** allow many actions *)
Example test_allow_many_actions :
  let s := after (allow User (VRef 17) Product VUndefined) fresh in
  can' s user read product = Fulfilled (VBool true)
  /\ can' s user (VString "create") product = Fulfilled (VBool true)
  /\ can' s user (VString "destroy") product = Fulfilled (VBool true)
  /\ can' s user (VString "update") product = Fulfilled (VBool false).
Proof. repeat split. Qed.

(** allow all actions using "manage" *)
Example test_manage :
  let s := after (allow User (VString "manage") Product VUndefined) fresh in
  can' s user read product = Fulfilled (VBool true)
  /\ can' s user (VString "modify") product = Fulfilled (VBool true).
Proof. repeat split. Qed.

(** allow all actions and all objects *)
Example test_manage_all :
  let s := after (allow User (VString "manage") (VString "all") VUndefined) fresh in
  can' s user read user = Fulfilled (VBool true)
  /\ can' s user read product = Fulfilled (VBool true).
Proof. repeat split. Qed.

(** allow only objects that satisfy given condition *)
Example test_attribute_map :
  can' published_rule user read product = Fulfilled (VBool false)
  /\ can' published_rule user read publicProduct = Fulfilled (VBool true).
Proof. repeat split. Qed.

(** allow only when performer passes a condition *)
Example test_performer_condition :
  let s := after (allow User read Product (VRef 14)) fresh in
  can' s user read product = Fulfilled (VBool false)
  /\ can' s adminUser read product = Fulfilled (VBool true).
Proof. repeat split. Qed.

(** throw when condition is not a function or an object *)
Example test_invalid_condition :
  fst (allow User read Product VUndefined fresh) = Ok tt
  /\ fst (allow User read Product (VString "abc") fresh)
     = Throw (NativeError "TypeError"
                "Expected condition to be object or function, got string").
Proof. repeat split. Qed.

(** allow permissions on classes *)
Example test_classes :
  can' one_rule user read Product = Fulfilled (VBool true).
Proof. reflexivity. Qed.

(** passed function should be async/awaitable; [cannot] negates it *)
Example test_async_condition :
  let s := after (allow User read Product (VRef 15)) fresh in
  can' s user read product = Fulfilled (VBool false)
  /\ fst (cannot program [user; read; product] s) = Fulfilled (VBool true).
Proof. repeat split. Qed.

(** a condition whose promise is rejected *)
Example test_rejected_condition :
  let s := after (allow User read Product (VRef 19)) one_rule in
  can' s user read product = Rejected (Thrown (VString "late")).
Proof. reflexivity. Qed.

(** [{}] as the condition, and no target at all in the query *)
Example test_empty_map :
  let s := after (allow User (VString "manage") (VString "all") (VRef 7)) fresh in
  can' s user read VUndefined = Fulfilled (VBool true).
Proof. reflexivity. Qed.

(** no actions at all: [arrify(undefined)] is empty and nothing is declared *)
Example test_no_actions :
  abilities (self (after (allow User VUndefined Product VUndefined) fresh)) = [].
Proof. reflexivity. Qed.

(** a rule for one instance: the default [instanceOf] throws on a target
    that is not a constructor, and the query on another instance is rejected *)
Example test_instance_target :
  let s := after (allow User read publicProduct VUndefined) fresh in
  can' s user read publicProduct = Fulfilled (VBool true)
  /\ can' s user read product = Rejected not_callable.
Proof. repeat split. Qed.

End Replay.

(** * Further properties of [src/index.js] *)

(** ** A new engine, wildcards, and undeclared actions *)

Lemma heap_before_0 (h : heap) (options : val) : heap_before h options 0 = h.
Proof.
  unfold heap_before. destruct (truthy options); [reflexivity|].
  simpl. apply app_nil_r.
Qed.

(** A query that no rule survives: [false], nothing invoked or allocated. *)
Lemma can_none_filtered (H : host) (performer action target options : val)
    (s : state) :
  filteredAbilities (self s) (st_heap s) performer action target = Ok [] ->
  can H performer action target options s = (Fulfilled (VBool false), s).
Proof.
  intro F. rewrite can_run, F. cbn [outcomes events invocations filter length].
  rewrite heap_before_0, queried_nil. reflexivity.
Qed.

Lemma cannot_of_can (H : host) (arguments : list val) (s s' : state) (b : bool) :
  can_apply H arguments s = (Fulfilled (VBool b), s') ->
  cannot H arguments s = (Fulfilled (VBool (negb b)), s').
Proof. intro C. unfold cannot. now rewrite C. Qed.

Lemma rejected_of_can (H : host) (arguments : list val) (s s' : state)
    (e : error) :
  can_apply H arguments s = (Rejected e, s') ->
  cannot H arguments s = (Rejected e, s')
  /\ authorize H arguments s = (Rejected e, s').
Proof. intro C. unfold authorize, cannot. now rewrite C. Qed.

(** X1.  On an engine that has just been constructed, with or without
    options, every query is denied: [can] returns [false], [cannot] returns
    [true] and [authorize] is rejected with what [createError] makes of the
    arguments; no function of the program but [createError] is called, and the
    machine is left as it was. *)
Theorem new_engine_denies :
  forall (H : host) (options : option Options) (h : heap)
         (calls : list call_event) (arguments : list val),
    can_apply H arguments
      {| st_heap := h; self := new_CanCan H options; st_calls := calls |}
    = (Fulfilled (VBool false),
       {| st_heap := h; self := new_CanCan H options; st_calls := calls |})
    /\ cannot H arguments
         {| st_heap := h; self := new_CanCan H options; st_calls := calls |}
       = (Fulfilled (VBool true),
          {| st_heap := h; self := new_CanCan H options; st_calls := calls |})
    /\ fst (authorize H arguments
              {| st_heap := h; self := new_CanCan H options; st_calls := calls |})
       = match createError (new_CanCan H options) h arguments with
         | Ok err => Rejected err
         | Throw e => Rejected e
         end.
Proof.
  intros H options h calls arguments.
  assert (C : can_apply H arguments
                {| st_heap := h; self := new_CanCan H options; st_calls := calls |}
              = (Fulfilled (VBool false),
                 {| st_heap := h; self := new_CanCan H options;
                    st_calls := calls |})).
  { unfold can_apply. apply can_none_filtered. reflexivity. }
  split; [exact C|].
  pose proof (cannot_of_can _ _ _ _ _ C) as N. split; [exact N|].
  unfold authorize. rewrite N. reflexivity.
Qed.

(** X2.  A rule declared for action ['manage'] and target ['all'] without a
    condition grants every action on every target (also on [undefined]) to
    every performer that [instanceOf] places under its model, in every query
    that completes. *)
Theorem manage_all_grants :
  forall (H : host) (s : state) (performer : val) (r : ability),
    In r (abilities (self s)) ->
    Ability.action r = VString "manage" ->
    Ability.target r = VString "all" ->
    has_condition r = false ->
    model_matches (self s) (st_heap s) performer r ->
    forall action target options : val,
      completes H s performer action target options ->
      fst (can H performer action target options s) = Fulfilled (VBool true).
Proof.
  intros H s performer r I A T C M action target options Done.
  apply can_true_at. split; [exact Done|].
  destruct (in_split _ _ I) as (pre & post & Split).
  exists pre, r, post. split; [exact Split|]. split; [exact M|].
  split; [now left|]. split; [now left|].
  exists (VBool true). unfold outcome_at. rewrite C. now split.
Qed.

(** On the test suite's program: [allow(User, 'manage', 'all')] and a query
    about an action and a target that nothing mentions. *)
Lemma manage_all_grants_witness :
  In {| Ability.model := Scenario.User; Ability.action := VString "manage";
        Ability.target := VString "all"; Ability.condition := VUndefined |}
     (abilities (self Scenario.with_number_and_plain_rule))
  /\ completes Scenario.program Scenario.with_number_and_plain_rule
       Scenario.user (VString "archive") VNull VUndefined
  /\ fst (can Scenario.program Scenario.user (VString "archive") VNull
            VUndefined Scenario.with_number_and_plain_rule)
     = Fulfilled (VBool true).
Proof.
  assert (I : In {| Ability.model := Scenario.User;
                    Ability.action := VString "manage";
                    Ability.target := VString "all";
                    Ability.condition := VUndefined |}
                 (abilities (self Scenario.with_number_and_plain_rule)))
    by (right; now left).
  assert (Done : completes Scenario.program Scenario.with_number_and_plain_rule
                   Scenario.user (VString "archive") VNull VUndefined).
  { eexists. split; [reflexivity|].
    constructor; [now exists (VBool true)|constructor]. }
  split; [exact I|]. split; [exact Done|].
  exact (manage_all_grants Scenario.program Scenario.with_number_and_plain_rule
           Scenario.user _ I eq_refl eq_refl eq_refl
           (ex_intro _ (VBool true) (conj eq_refl eq_refl))
           (VString "archive") VNull VUndefined Done).
Defined.

(** X3.  When no rule is declared for the action of a query, nor for
    ['manage'], and the filters complete, [can] returns [false] without
    invoking any condition: nothing is allocated and the machine is left as it
    was. *)
Theorem undeclared_action_denied :
  forall (H : host) (performer action target options : val) (s : state)
         (filtered : list ability),
    (forall r, In r (abilities (self s)) -> ~ action_matches action r) ->
    filteredAbilities (self s) (st_heap s) performer action target
    = Ok filtered ->
    can H performer action target options s = (Fulfilled (VBool false), s).
Proof.
  intros H performer action target options s filtered None F.
  apply can_none_filtered. rewrite F. f_equal.
  rewrite (filteredAbilities_Ok _ _ _ _ _ _ F).
  clear F. induction (abilities (self s)) as [|a l IH]; [reflexivity|].
  cbn [filter].
  destruct (passes_filters (self s) (st_heap s) performer action target a) eqn:P.
  - exfalso. apply passes_filters_iff in P. destruct P as (_ & _ & P).
    apply (None a); [now left|exact P].
  - apply IH. intros r I. apply None. now right.
Qed.

(** On the test suite's program: one rule for ['read'], a query for
    ['create']. *)
Lemma undeclared_action_denied_witness :
  (forall r, In r (abilities (self Scenario.one_rule)) ->
             ~ action_matches (VString "create") r)
  /\ filteredAbilities (self Scenario.one_rule) (st_heap Scenario.one_rule)
       Scenario.user (VString "create") Scenario.product
     = Ok []
  /\ can Scenario.program Scenario.user (VString "create") Scenario.product
       VUndefined Scenario.one_rule
     = (Fulfilled (VBool false), Scenario.one_rule).
Proof.
  assert (None : forall r, In r (abilities (self Scenario.one_rule)) ->
                           ~ action_matches (VString "create") r).
  { intros r [<-|[]] [A|A]; discriminate A. }
  split; [exact None|]. split; [reflexivity|].
  exact (undeclared_action_denied Scenario.program Scenario.user
           (VString "create") Scenario.product VUndefined Scenario.one_rule []
           None eq_refl).
Defined.

(** ** Failing filters *)

Lemma filter_js_throws_first {A : Type} (f : A -> result val)
    (pre post : list A) (a : A) (e : error) :
  (forall x, In x pre -> exists v, f x = Ok v) ->
  f a = Throw e ->
  filter_js f (pre ++ a :: post) = Throw e.
Proof.
  intros Pre E. induction pre as [|x pre IH]; cbn [app filter_js].
  - now rewrite E.
  - destruct (Pre x (or_introl eq_refl)) as (v & ->).
    rewrite IH; [reflexivity|]. intros y I. apply Pre. now right.
Qed.

Lemma filter_js_throws {A : Type} (f : A -> result val) (l : list A) (a : A)
    (e : error) :
  In a l -> f a = Throw e ->
  exists a' e', In a' l /\ f a' = Throw e' /\ filter_js f l = Throw e'.
Proof.
  induction l as [|x l IH]; [intros []|].
  intros I E. cbn [filter_js]. destruct (f x) as [v|e0] eqn:X.
  - destruct I as [->|I]; [congruence|].
    destruct (IH I E) as (a' & e' & I' & E' & ->).
    exists a', e'. repeat split; [now right|exact E'].
  - exists x, e0. repeat split; [now left|exact X].
Qed.

Lemma filter_js_thrown {A : Type} (f : A -> result val) (l : list A) (e : error) :
  filter_js f l = Throw e -> exists a, In a l /\ f a = Throw e.
Proof.
  induction l as [|x l IH]; cbn [filter_js]; [discriminate|].
  destruct (f x) as [v|e0] eqn:X.
  - destruct (filter_js f l) as [kept|e1]; [discriminate|].
    intros [= <-]. destruct (IH eq_refl) as (a & I & E).
    exists a. split; [now right|exact E].
  - intros [= <-]. exists x. split; [now left|exact X].
Qed.

(** X4.  The model filter runs over the whole registry before the action and
    the target are looked at: when [instanceOf] throws on the model of a rule,
    and on the model of no rule declared before it, every query of that
    performer is rejected with that error, whatever its action, target and
    options; so are [cannot] and [authorize]; no condition is invoked and the
    machine is left as it was. *)
Theorem throwing_model_check_rejects :
  forall (H : host) (s : state) (performer : val) (pre post : list ability)
         (r : ability) (e : error),
    abilities (self s) = pre ++ r :: post ->
    (forall a, In a pre ->
               exists v, instanceOf (self s) (st_heap s) performer
                           (Ability.model a) = Ok v) ->
    instanceOf (self s) (st_heap s) performer (Ability.model r) = Throw e ->
    forall action target options : val,
      can H performer action target options s = (Rejected e, s)
      /\ cannot H [performer; action; target; options] s = (Rejected e, s)
      /\ authorize H [performer; action; target; options] s = (Rejected e, s).
Proof.
  intros H s performer pre post r e Split Pre E action target options.
  assert (C : can H performer action target options s = (Rejected e, s)).
  { unfold can, filteredAbilities. rewrite Split.
    now rewrite (filter_js_throws_first _ pre post r e Pre E). }
  split; [exact C|].
  exact (rejected_of_can H [performer; action; target; options] s s e C).
Qed.

(** On the test suite's program, with [5] (not an object) for the model of
    the second rule: the default [instanceOf] throws on it. *)
Lemma throwing_model_check_rejects_witness :
  abilities (self (Scenario.after (allow (VNumber 5) Scenario.read
                                     Scenario.Product VUndefined)
                     Scenario.one_rule))
  = [{| Ability.model := Scenario.User; Ability.action := Scenario.read;
        Ability.target := Scenario.Product; Ability.condition := VUndefined |}]
      ++ {| Ability.model := VNumber 5; Ability.action := Scenario.read;
            Ability.target := Scenario.Product;
            Ability.condition := VUndefined |} :: []
  /\ can Scenario.program Scenario.user (VString "create") VUndefined VUndefined
       (Scenario.after (allow (VNumber 5) Scenario.read Scenario.Product
                          VUndefined) Scenario.one_rule)
     = (Rejected not_callable,
        Scenario.after (allow (VNumber 5) Scenario.read Scenario.Product
                          VUndefined) Scenario.one_rule).
Proof.
  split; [reflexivity|].
  refine (proj1 (throwing_model_check_rejects Scenario.program
                   (Scenario.after (allow (VNumber 5) Scenario.read
                                      Scenario.Product VUndefined)
                      Scenario.one_rule)
                   Scenario.user _ [] _ not_callable eq_refl _ eq_refl
                   (VString "create") VUndefined VUndefined)).
  intros a [<-|[]]. now exists (VBool true).
Defined.

(** The default [instanceOf] throws nothing but a [TypeError]. *)
Lemma instanceof_TypeError (H : host) (h : heap) (instance model : val)
    (e : error) :
  instanceof H h instance model = Throw e ->
  exists message, e = NativeError "TypeError" message.
Proof.
  unfold instanceof.
  destruct (closure_of h model) as [c|] eqn:C;
    [|intros [= <-]; eexists; reflexivity].
  assert (R : exists v, read_prop H h model "prototype" = Ok v).
  { destruct model; try discriminate C. unfold read_prop.
    destruct (nth_error h l) as [o|]; [|now eexists].
    destruct (assoc "prototype" (o_props o)); [now eexists|].
    destruct (chain_prop h (o_protos o) "prototype"); now eexists. }
  destruct R as (v & ->).
  destruct instance; try discriminate;
    destruct v; try discriminate;
    try (intros [= <-]; eexists; reflexivity);
    destruct (nth_error h l); discriminate.
Qed.

(** X5.  With the default [instanceOf], a rule whose target is not a
    constructor (one particular object, or a string other than ['all'])
    makes every query of a performer of its model about any other target
    fail: [can] is rejected with a [TypeError], whatever the action, and the
    machine is left as it was. *)
Theorem instance_target_rejects_others :
  forall (H : host) (s : state) (performer target : val) (r : ability),
    instanceOf (self s) = defaultInstanceOf H ->
    In r (abilities (self s)) ->
    model_matches (self s) (st_heap s) performer r ->
    Ability.target r <> VString "all" ->
    strict_eq target (Ability.target r) = false ->
    closure_of (st_heap s) (Ability.target r) = None ->
    forall action options : val,
      exists message,
        can H performer action target options s
        = (Rejected (NativeError "TypeError" message), s).
Proof.
  intros H s performer target r Default I M NotAll Other NotFn action options.
  unfold can, filteredAbilities. rewrite Default.
  destruct (filter_js _ (abilities (self s))) as [by_model|e] eqn:F1.
  - assert (I1 : In r by_model).
    { apply filter_js_Ok in F1. destruct F1 as [-> _].
      apply filter_In. split; [exact I|].
      apply truthy_result_holds. unfold model_matches in M.
      now rewrite Default in M. }
    assert (T : (if strict_eq (Ability.target r) (VString "all")
                 then Ok (VBool true)
                 else if strict_eq target (Ability.target r)
                      then Ok (VBool true)
                      else defaultInstanceOf H (st_heap s) target
                             (Ability.target r))
                = Throw not_callable).
    { destruct (strict_eq (Ability.target r) (VString "all")) eqn:A.
      - apply strict_eq_string in A. contradiction.
      - rewrite Other. unfold defaultInstanceOf, instanceof. now rewrite NotFn. }
    destruct (filter_js_throws
                (fun ability =>
                   if strict_eq (Ability.target ability) (VString "all")
                   then Ok (VBool true)
                   else if strict_eq target (Ability.target ability)
                        then Ok (VBool true)
                        else defaultInstanceOf H (st_heap s) target
                               (Ability.target ability))
                by_model r not_callable I1 T)
      as (a' & e' & _ & E' & ->).
    destruct (strict_eq (Ability.target a') (VString "all")); [discriminate|].
    destruct (strict_eq target (Ability.target a')); [discriminate|].
    destruct (instanceof_TypeError _ _ _ _ _ E') as (message & ->).
    now exists message.
  - destruct (filter_js_thrown _ _ _ F1) as (a & _ & E).
    destruct (instanceof_TypeError _ _ _ _ _ E) as (message & ->).
    now exists message.
Qed.

(** On the test suite's program: a rule for one product, a query about
    another. *)
Lemma instance_target_rejects_others_witness :
  In {| Ability.model := Scenario.User; Ability.action := Scenario.read;
        Ability.target := Scenario.publicProduct;
        Ability.condition := VUndefined |}
     (abilities (self (Scenario.after
                         (allow Scenario.User Scenario.read
                            Scenario.publicProduct VUndefined)
                         Scenario.fresh)))
  /\ exists message,
       can Scenario.program Scenario.user (VString "create") Scenario.product
         VUndefined
         (Scenario.after (allow Scenario.User Scenario.read
                            Scenario.publicProduct VUndefined) Scenario.fresh)
       = (Rejected (NativeError "TypeError" message),
          Scenario.after (allow Scenario.User Scenario.read
                            Scenario.publicProduct VUndefined) Scenario.fresh).
Proof.
  assert (I : In {| Ability.model := Scenario.User;
                    Ability.action := Scenario.read;
                    Ability.target := Scenario.publicProduct;
                    Ability.condition := VUndefined |}
                 (abilities (self (Scenario.after
                                     (allow Scenario.User Scenario.read
                                        Scenario.publicProduct VUndefined)
                                     Scenario.fresh))))
    by now left.
  split; [exact I|].
  refine (instance_target_rejects_others Scenario.program
            (Scenario.after (allow Scenario.User Scenario.read
                               Scenario.publicProduct VUndefined) Scenario.fresh)
            Scenario.user Scenario.product _ eq_refl I
            (ex_intro _ (VBool true) (conj eq_refl eq_refl)) _ eq_refl eq_refl
            (VString "create") VUndefined).
  discriminate.
Defined.

(** ** Attribute maps at the edges *)

(** X6.  The function stored for an attribute map with at least one key
    throws a [TypeError] when the target of the query is [undefined] or
    [null], as [get] reads [obj.get] first; the callback promise of such a rule
    is then rejected. *)
Theorem attribute_map_needs_target :
  forall (H : host) (h : heap) (fn m : val) (key : string) (keys : list string)
         (target : val),
    closure_of h fn = Some (ConditionFn m) ->
    object_keys h m = Ok (key :: keys) ->
    target = VUndefined \/ target = VNull ->
    forall (this : receiver) (performer options : val),
      call H h fn this [performer; target; options] = Throw cannot_read.
Proof.
  intros H h fn m key keys target Fn Keys Missing this performer options.
  rewrite (call_ConditionFn H h fn m _ _ Fn). cbn [nth].
  unfold isPartiallyEqual. rewrite Keys. cbn [every].
  destruct Missing as [-> | ->]; reflexivity.
Qed.

(** On the test suite's program: the rule for [{published: true}], with
    ['all'] for its target, and a query without a target. *)
Lemma attribute_map_needs_target_witness :
  closure_of (st_heap Scenario.published_rule) (VRef 22)
  = Some (ConditionFn (VRef 10))
  /\ object_keys (st_heap Scenario.published_rule) (VRef 10)
     = Ok ["published"]
  /\ call Scenario.program (st_heap Scenario.published_rule) (VRef 22)
       (OnValue VUndefined) [Scenario.user; VUndefined; VUndefined]
     = Throw cannot_read.
Proof.
  split; [reflexivity|]. split; [reflexivity|].
  exact (attribute_map_needs_target Scenario.program
           (st_heap Scenario.published_rule) (VRef 22) (VRef 10) "published" []
           VUndefined eq_refl eq_refl (or_introl eq_refl)
           (OnValue VUndefined) Scenario.user VUndefined).
Defined.

Lemma every_app (f : string -> result val) (before after : list string) :
  Forall (fun key => holds (f key)) before ->
  every f (before ++ after) = every f after.
Proof.
  induction 1 as [|key before (v & E & T) _ IH]; [reflexivity|].
  cbn [app every]. now rewrite E, T.
Qed.

(** X7.  The keys of an attribute map are compared in their order and the
    comparison stops at the first key whose attribute differs: the result is
    [false] then, and the attributes of the keys after it are not read, so a
    getter that would throw on one of them is not called.  When reading the
    attribute of the first key not yet matched throws, the function throws
    that error. *)
Theorem isPartiallyEqual_stops_early :
  forall (H : host) (h : heap) (target obj : val) (before after : list string)
         (key : string),
    object_keys h obj = Ok (before ++ key :: after) ->
    Forall (attribute_equals H h target obj) before ->
    (forall attribute expected,
        get H (call H) h target key = Ok attribute ->
        read_prop H h obj key = Ok expected ->
        strict_eq attribute expected = false ->
        isPartiallyEqual H (call H) h target obj = Ok (VBool false))
    /\ (forall e,
           get H (call H) h target key = Throw e ->
           isPartiallyEqual H (call H) h target obj = Throw e).
Proof.
  intros H h target obj before after key Keys Before.
  unfold isPartiallyEqual. rewrite Keys.
  rewrite every_app.
  2:{ eapply Forall_impl; [|exact Before]. intros k (a & x & -> & -> & E).
      exists (VBool true). now rewrite E. }
  cbn [every]. split.
  - intros attribute expected -> -> ->. reflexivity.
  - intros e ->. reflexivity.
Qed.

(** In [Picky]: the first key differs, the getter would throw on the second. *)
Lemma isPartiallyEqual_stops_early_witness :
  object_keys Picky.objects (VRef 0) = Ok ([] ++ "published" :: ["owner"])
  /\ get Picky.program (call Picky.program) Picky.objects (VRef 2) "owner"
     = Throw (Thrown (VString "no such attribute"))
  /\ isPartiallyEqual Picky.program (call Picky.program) Picky.objects
       (VRef 2) (VRef 0)
     = Ok (VBool false).
Proof.
  split; [reflexivity|]. split; [reflexivity|].
  exact (proj1 (isPartiallyEqual_stops_early Picky.program Picky.objects
                  (VRef 2) (VRef 0) [] ["owner"] "published" eq_refl
                  (Forall_nil _))
           (VBool false) (VBool true) eq_refl eq_refl eq_refl).
Defined.

(** ** [allow] at the edges *)

(** X8.  [allow] only ever appends: whether it returns or throws, the rules
    declared before are still there, in their order and before any new one;
    [instanceOf] and [createError] are the configured ones; no object of the
    program's heap is changed or removed. *)
Theorem allow_only_appends :
  forall (model actions targets condition : val) (s : state),
    (exists new,
        abilities (self (snd (allow model actions targets condition s)))
        = abilities (self s) ++ new)
    /\ instanceOf (self (snd (allow model actions targets condition s)))
       = instanceOf (self s)
    /\ createError (self (snd (allow model actions targets condition s)))
       = createError (self s)
    /\ st_calls (snd (allow model actions targets condition s)) = st_calls s
    /\ (forall l o,
           nth_error (st_heap s) l = Some o ->
           nth_error (st_heap (snd (allow model actions targets condition s))) l
           = Some o).
Proof.
  intros model actions targets condition s. rewrite allow_run.
  destruct (rejected_condition (st_heap s) condition); cbn [snd].
  - split; [exists []; now rewrite app_nil_r|]. repeat split; auto.
  - cbn [pushed self abilities instanceOf createError st_calls st_heap].
    split; [eexists; reflexivity|]. repeat split.
    intros l o L. unfold heap_after_allow.
    destruct (isObject (st_heap s) condition); [|exact L].
    now apply nth_error_alloc.
Qed.

(** X9.  Besides strings, numbers and booleans, [allow] refuses for a
    condition: [null], any array, and any object that has a prototype of the
    program's (an instance of a class).  [typeof] is ['object'] for all three,
    so the message of the [TypeError] says that it got an object, and the
    machine is left as it was. *)
Theorem allow_refuses_objects_that_are_not_plain :
  forall (model actions targets : val) (s : state),
    allow model actions targets VNull s
    = (Throw (NativeError "TypeError"
                "Expected condition to be object or function, got object"), s)
    /\ (forall condition elems,
           array_elements (st_heap s) condition = Some elems ->
           allow model actions targets condition s
           = (Throw (NativeError "TypeError"
                       "Expected condition to be object or function, got object"),
              s))
    /\ (forall l o,
           nth_error (st_heap s) l = Some o ->
           o_kind o = KOrdinary ->
           o_protos o <> [] ->
           allow model actions targets (VRef l) s
           = (Throw (NativeError "TypeError"
                       "Expected condition to be object or function, got object"),
              s)).
Proof.
  intros model actions targets s. split; [|split].
  - rewrite allow_run. reflexivity.
  - intros condition elems A. rewrite allow_run.
    destruct condition; try discriminate A.
    unfold rejected_condition, condition_error, typeof, closure_of, isObject.
    simpl in A. destruct (nth_error (st_heap s) l) as [o|]; [|discriminate A].
    destruct (o_kind o); try discriminate A. reflexivity.
  - intros l o L K P. rewrite allow_run.
    unfold rejected_condition, condition_error, typeof, closure_of, isObject.
    rewrite L, K. destruct (o_protos o); [contradiction|reflexivity].
Qed.

Lemma declared_no_targets (model condition : val) (actions : list val) :
  declared model actions [] condition = [].
Proof.
  unfold declared. induction actions as [|action actions IH]; [reflexivity|].
  cbn [flat_map map app]. exact IH.
Qed.

(** X10.  When the actions or the targets normalize to no element (an empty
    array; also [undefined] and [null], which [arrify] takes for nothing), a
    call of [allow] that returns declares no rule: the registry is as before.
    The condition is checked all the same. *)
Theorem allow_of_nothing :
  forall (model actions targets condition : val) (s s' : state),
    arrify (st_heap s) actions = [] \/ arrify (st_heap s) targets = [] ->
    allow model actions targets condition s = (Ok tt, s') ->
    abilities (self s') = abilities (self s).
Proof.
  intros model actions targets condition s s' Empty. rewrite allow_run.
  destruct (rejected_condition (st_heap s) condition); [discriminate|].
  intros [= <-]. cbn [pushed self abilities].
  destruct Empty as [-> | ->].
  - apply app_nil_r.
  - rewrite declared_no_targets. apply app_nil_r.
Qed.

(** On the test suite's program, with an empty array of targets. *)
Lemma allow_of_nothing_witness :
  arrify ([{| o_kind := KArray []; o_protos := []; o_props := [] |}]) (VRef 0)
  = []
  /\ abilities
       (self (snd (allow (VString "User") (VString "read") (VRef 0) VUndefined
                     {| st_heap := [{| o_kind := KArray []; o_protos := [];
                                       o_props := [] |}];
                        self := new_CanCan Scenario.program None;
                        st_calls := [] |})))
     = [].
Proof.
  split; [reflexivity|].
  exact (allow_of_nothing (VString "User") (VString "read") (VRef 0) VUndefined
           {| st_heap := [{| o_kind := KArray []; o_protos := [];
                             o_props := [] |}];
              self := new_CanCan Scenario.program None;
              st_calls := [] |}
           _ (or_intror eq_refl) eq_refl).
Defined.

(** ** Queries and the machine *)

Lemma can_run_heap (H : host) (performer action target options : val)
    (s : state) (l : loc) (o : object) :
  nth_error (st_heap s) l = Some o ->
  nth_error (st_heap (snd (can H performer action target options s))) l = Some o.
Proof.
  intro L. rewrite can_run.
  destruct (filteredAbilities (self s) (st_heap s) performer action target);
    cbn [snd queried st_heap]; [|exact L].
  unfold heap_before. destruct (truthy options); [exact L|].
  rewrite nth_error_app1; [exact L|]. apply nth_error_Some. congruence.
Qed.

(** X11.  No query changes the engine: after [can], [cannot] or [authorize],
    whatever the arguments and however the query ends, the registry holds the
    same rules in the same order and [instanceOf] and [createError] are the
    same; every object of the heap is unchanged. *)
Theorem queries_leave_the_registry :
  forall (H : host) (arguments : list val) (s : state),
    self (snd (can_apply H arguments s)) = self s
    /\ self (snd (cannot H arguments s)) = self s
    /\ self (snd (authorize H arguments s)) = self s
    /\ (forall l o,
           nth_error (st_heap s) l = Some o ->
           nth_error (st_heap (snd (authorize H arguments s))) l = Some o).
Proof.
  intros H arguments s.
  assert (S1 : self (snd (can_apply H arguments s)) = self s) by apply can_self.
  assert (H1 : forall l o,
             nth_error (st_heap s) l = Some o ->
             nth_error (st_heap (snd (can_apply H arguments s))) l = Some o)
    by (intros l o; apply can_run_heap).
  unfold authorize, cannot.
  destruct (can_apply H arguments s) as [awaited s']. cbn [snd] in *.
  repeat split; assumption.
Qed.


Lemma fulfilments_pending {A : Type} (promises : list (promise A)) (t : nat) :
  In (Pending, t) promises -> fulfilments promises = None.
Proof.
  induction promises as [|[[v|e|] t0] promises IH]; cbn [fulfilments];
    [intros []| | |]; try reflexivity.
  intros [X|I]; [discriminate|]. now rewrite (IH I).
Qed.

(** X13.  A condition whose promise never settles keeps the query from ever
    settling, even when another rule grants the access, as long as no
    condition fails: [can], [cannot] and [authorize] stay pending. *)
Theorem hung_condition_hangs_query :
  forall (H : host) (performer action target options : val) (s : state)
         (filtered : list ability) (t : nat),
    filteredAbilities (self s) (st_heap s) performer action target
    = Ok filtered ->
    In (Pending, t) (outcomes H (st_heap s) performer target options 0 filtered) ->
    (forall e t',
        ~ In (Rejected e, t')
             (outcomes H (st_heap s) performer target options 0 filtered)) ->
    fst (can H performer action target options s) = Pending
    /\ fst (cannot H [performer; action; target; options] s) = Pending
    /\ fst (authorize H [performer; action; target; options] s) = Pending.
Proof.
  intros H performer action target options s filtered t F Hung NoFailure.
  assert (C : fst (can H performer action target options s) = Pending).
  { rewrite can_run, F. cbn [fst]. unfold decision, promise_all.
    rewrite (proj2 (first_rejection_None _) NoFailure).
    now rewrite (fulfilments_pending _ t Hung). }
  unfold authorize, cannot, can_apply. cbn [nth].
  destruct (can H performer action target options s) as [awaited s'].
  cbn [fst] in *. subst awaited. repeat split.
Qed.

(** The first rule grants the access, the condition of the second never
    settles. *)
Lemma hung_condition_hangs_query_witness :
  filteredAbilities (self Hung.two_rules) (st_heap Hung.two_rules)
    Scenario.user Scenario.read Scenario.product
  = Ok (abilities (self Hung.two_rules))
  /\ outcomes Hung.program (st_heap Hung.two_rules) Scenario.user
       Scenario.product VUndefined 0 (abilities (self Hung.two_rules))
     = [(Fulfilled (VBool true), 0); (Pending, 1)]
  /\ fst (can Hung.program Scenario.user Scenario.read Scenario.product
            VUndefined Hung.two_rules)
     = Pending.
Proof.
  split; [reflexivity|]. split; [reflexivity|].
  refine (proj1 (hung_condition_hangs_query Hung.program Scenario.user
                   Scenario.read Scenario.product VUndefined Hung.two_rules
                   (abilities (self Hung.two_rules)) 1 eq_refl _ _)).
  - right. now left.
  - intros e t' [X|[X|[]]]; discriminate X.
Defined.

(** ** Declaring more *)

Lemma state_eta (s : state) :
  {| st_heap := st_heap s; self := self s; st_calls := st_calls s |} = s.
Proof. now destruct s. Qed.

(** What [allow] does with a condition that is not an attribute map. *)
Lemma allow_pushes (model actions targets condition : val) (s s' : state) :
  isObject (st_heap s) condition = false ->
  allow model actions targets condition s = (Ok tt, s') ->
  s' = pushed s (declared model (arrify (st_heap s) actions)
                   (arrify (st_heap s) targets) condition).
Proof.
  intros Plain. rewrite allow_run.
  destruct (rejected_condition (st_heap s) condition); [discriminate|].
  unfold heap_after_allow, stored_condition. rewrite Plain.
  intros [= <-]. now rewrite state_eta.
Qed.

Lemma can_true_pushed (H : host) (performer action target options : val)
    (s : state) (new : list ability) :
  fst (can H performer action target options s) = Fulfilled (VBool true) ->
  completes H (pushed s new) performer action target options ->
  fst (can H performer action target options (pushed s new))
  = Fulfilled (VBool true).
Proof.
  intros C Done. apply can_true_at in C.
  destruct C as (_ & pre & r & post & Split & R1 & R2 & R3 & P).
  apply can_true_at. split; [exact Done|].
  exists pre, r, (post ++ new). cbn [pushed self abilities st_heap].
  split; [now rewrite Split, <- app_assoc|].
  repeat (split; [assumption|]). exact P.
Qed.

(** X14.  There is no rule that takes access away: when a query returns
    [true], it still returns [true] after [allow] has declared further rules
    (with a function for a condition, or none), provided it still completes,
    that is provided none of the new rules makes a filter or a condition
    fail. *)
Theorem declaring_more_keeps_grants :
  forall (H : host) (model actions targets condition : val) (s s' : state)
         (performer action target options : val),
    isObject (st_heap s) condition = false ->
    allow model actions targets condition s = (Ok tt, s') ->
    fst (can H performer action target options s) = Fulfilled (VBool true) ->
    completes H s' performer action target options ->
    fst (can H performer action target options s') = Fulfilled (VBool true).
Proof.
  intros H model actions targets condition s s' performer action target options
    Plain Run C Done.
  rewrite (allow_pushes _ _ _ _ _ _ Plain Run) in Done |- *.
  now apply can_true_pushed.
Qed.

(** On the test suite's program: a rule that grants, then a rule whose
    condition resolves to [false]. *)
Lemma declaring_more_keeps_grants_witness :
  isObject (st_heap Scenario.one_rule) (VRef 15) = false
  /\ allow Scenario.User Scenario.read Scenario.Product (VRef 15)
       Scenario.one_rule
     = (Ok tt, Hung.two_rules)
  /\ fst (can Scenario.program Scenario.user Scenario.read Scenario.product
            VUndefined Scenario.one_rule)
     = Fulfilled (VBool true)
  /\ completes Scenario.program Hung.two_rules Scenario.user Scenario.read
       Scenario.product VUndefined
  /\ fst (can Scenario.program Scenario.user Scenario.read Scenario.product
            VUndefined Hung.two_rules)
     = Fulfilled (VBool true).
Proof.
  assert (Done : completes Scenario.program Hung.two_rules Scenario.user
                   Scenario.read Scenario.product VUndefined).
  { eexists. split; [reflexivity|].
    constructor; [now exists (VBool true)|].
    constructor; [now exists (VBool false)|constructor]. }
  split; [reflexivity|]. split; [reflexivity|]. split; [reflexivity|].
  split; [exact Done|].
  exact (declaring_more_keeps_grants Scenario.program Scenario.User
           Scenario.read Scenario.Product (VRef 15) Scenario.one_rule
           Hung.two_rules Scenario.user Scenario.read Scenario.product
           VUndefined eq_refl eq_refl eq_refl Done).
Defined.

(** ** Declaring again *)

Lemma filter_js_app {A : Type} (f : A -> result val) (l1 l2 : list A) :
  filter_js f (l1 ++ l2)
  = match filter_js f l1 with
    | Throw e => Throw e
    | Ok kept1 =>
        match filter_js f l2 with
        | Throw e => Throw e
        | Ok kept2 => Ok (kept1 ++ kept2)
        end
    end.
Proof.
  induction l1 as [|a l1 IH]; cbn [app filter_js].
  - destruct (filter_js f l2); reflexivity.
  - destruct (f a) as [v|e]; [|reflexivity]. rewrite IH.
    destruct (filter_js f l1) as [kept1|e]; [|reflexivity].
    destruct (filter_js f l2) as [kept2|e]; [|reflexivity].
    destruct (truthy v); reflexivity.
Qed.

Lemma first_rejection_snoc {A : Type} (promises : list (promise A))
    (p : promise A) :
  first_rejection (promises ++ [p])
  = match first_rejection promises, fst p with
    | Some (e0, t0), Rejected e =>
        if Nat.ltb (snd p) t0 then Some (e, snd p) else Some (e0, t0)
    | None, Rejected e => Some (e, snd p)
    | found, _ => found
    end.
Proof.
  destruct p as [r t]. cbn [fst snd].
  induction promises as [|[[v1|e1|] t1] promises IH]; cbn [app first_rejection].
  - destruct r; reflexivity.
  - exact IH.
  - rewrite IH. destruct (first_rejection promises) as [[e0 t0]|];
      destruct r as [v|e|]; cbv zeta; try reflexivity.
    all: repeat match goal with
                | |- context [Nat.ltb ?a ?b] => destruct (Nat.ltb a b) eqn:?
                end;
      try reflexivity;
      repeat match goal with
             | X : Nat.ltb _ _ = true |- _ => apply Nat.ltb_lt in X
             | X : Nat.ltb _ _ = false |- _ => apply Nat.ltb_ge in X
             end; lia.
  - exact IH.
Qed.

Lemma fulfilments_snoc {A : Type} (promises : list (promise A))
    (p : promise A) :
  fulfilments (promises ++ [p])
  = match fulfilments promises, fst p with
    | Some values, Fulfilled v => Some (values ++ [v])
    | _, _ => None
    end.
Proof.
  destruct p as [r t]. cbn [fst].
  induction promises as [|[[v1|e1|] t1] promises IH]; cbn [app fulfilments].
  - destruct r; reflexivity.
  - rewrite IH. destruct (fulfilments promises); destruct r; reflexivity.
  - destruct r; reflexivity.
  - destruct r; reflexivity.
Qed.

(** One more promise that is already among the promises changes nothing in
    the decision. *)
Lemma decision_duplicate (promises : list (promise val)) (p : promise val) :
  In p promises -> decision (promises ++ [p]) = decision promises.
Proof.
  intro I. unfold decision, promise_all.
  rewrite first_rejection_snoc, fulfilments_snoc.
  destruct p as [r t]. cbn [fst snd].
  destruct (first_rejection promises) as [[e0 t0]|] eqn:R.
  - destruct r as [v|e|]; try reflexivity.
    destruct (first_rejection_Some _ _ _ R) as [_ Least].
    specialize (Least e t I).
    destruct (Nat.ltb t t0) eqn:C; [|reflexivity].
    apply Nat.ltb_lt in C. lia.
  - destruct r as [v|e|].
    + destruct (fulfilments promises) as [values|] eqn:F; [|reflexivity].
      cbn [then_]. do 2 f_equal.
      pose proof (fulfilments_fulfilled _ _ F) as All.
      destruct (fulfilments_Some _ All) as (values' & F' & M).
      rewrite F in F'. injection F' as <-.
      rewrite filter_app, length_app. cbn [filter].
      destruct (truthy v) eqn:T; [|cbn [length]; now rewrite Nat.add_0_r].
      assert (V : In v (filter truthy values)).
      { apply filter_In. split; [|exact T].
        apply (in_map fst) in I. rewrite M in I. cbn [fst] in I.
        apply in_map_iff in I. destruct I as (v' & [= ->] & I). exact I. }
      destruct (filter truthy values); [destruct V|]. reflexivity.
    + exfalso. exact (proj1 (first_rejection_None promises) R e t I).
    + now rewrite (fulfilments_pending _ t I).
Qed.

Lemma filteredAbilities_again (s : state) (performer action target : val)
    (r : ability) :
  In r (abilities (self s)) ->
  filteredAbilities (self (pushed s [r])) (st_heap s) performer action target
  = match filteredAbilities (self s) (st_heap s) performer action target with
    | Throw e => Throw e
    | Ok filtered =>
        Ok (filtered
              ++ if passes_filters (self s) (st_heap s) performer action target r
                 then [r] else [])
    end.
Proof.
  intro I.
  destruct (filteredAbilities (self s) (st_heap s) performer action target)
    as [filtered|e] eqn:F.
  - pose proof (filteredAbilities_Ok _ _ _ _ _ _ F) as Filtered.
    revert F. unfold filteredAbilities.
    cbn [pushed self abilities instanceOf]. rewrite filter_js_app.
    destruct (filter_js _ (abilities (self s))) as [by_model|e] eqn:M;
      [|discriminate].
    destruct (filter_js_Ok _ _ _ M) as [ByModel All1].
    rewrite Forall_forall in All1. destruct (All1 r I) as (v1 & E1).
    cbn [filter_js]. rewrite E1. rewrite filter_js_app.
    destruct (filter_js _ by_model) as [by_target|e] eqn:T; [|discriminate].
    destruct (filter_js_Ok _ _ _ T) as [ByTarget All2].
    rewrite Forall_forall in All2.
    intros [= <-]. unfold passes_filters, matches_model. rewrite E1.
    cbn [truthy_result]. destruct (truthy v1) eqn:T1.
    + assert (I1 : In r by_model).
      { rewrite ByModel. apply filter_In. split; [exact I|].
        now rewrite E1. }
      destruct (All2 r I1) as (v2 & E2). cbn [filter_js]. rewrite E2.
      rewrite filter_app. do 2 f_equal. cbn [andb].
      assert (M2 : matches_target (self s) (st_heap s) target r = truthy v2).
      { unfold matches_target. revert E2.
        destruct (strict_eq (Ability.target r) (VString "all"));
          [now intros [= <-]|].
        destruct (strict_eq target (Ability.target r));
          [now intros [= <-]|].
        now intros ->. }
      rewrite M2. destruct (truthy v2); cbn [filter andb]; [|reflexivity].
      unfold matches_action.
      destruct (strict_eq (Ability.action r) (VString "manage")
                || strict_eq action (Ability.action r)); reflexivity.
    + cbn [filter_js andb]. now rewrite !app_nil_r.
  - revert F. unfold filteredAbilities.
    cbn [pushed self abilities instanceOf]. rewrite filter_js_app.
    destruct (filter_js _ (abilities (self s))) as [by_model|e1] eqn:M.
    + destruct (filter_js_Ok _ _ _ M) as [ByModel All1].
      rewrite Forall_forall in All1. destruct (All1 r I) as (v1 & E1).
      cbn [filter_js]. rewrite E1. rewrite filter_js_app.
      destruct (filter_js _ by_model) as [by_target|e2]; [discriminate|].
      now intros [= <-].
    + now intros [= <-].
Qed.

Lemma can_again (H : host) (performer action target options : val) (s : state)
    (r : ability) :
  In r (abilities (self s)) ->
  position_independent H (st_heap s) performer target options
    (abilities (self s)) ->
  fst (can H performer action target options (pushed s [r]))
  = fst (can H performer action target options s).
Proof.
  intros I Ind. rewrite !can_run. cbn [pushed st_heap].
  change (self {| st_heap := st_heap s;
                  self := {| abilities := abilities (self s) ++ [r];
                             instanceOf := instanceOf (self s);
                             createError := createError (self s) |};
                  st_calls := st_calls s |})
    with (self (pushed s [r])).
  rewrite (filteredAbilities_again s performer action target r I).
  destruct (filteredAbilities (self s) (st_heap s) performer action target)
    as [filtered|e] eqn:F; [|reflexivity].
  cbn [fst].
  destruct (passes_filters (self s) (st_heap s) performer action target r) eqn:P;
    [|now rewrite app_nil_r].
  rewrite outcomes_app. cbn [outcomes]. apply decision_duplicate.
  pose proof (filteredAbilities_Ok _ _ _ _ _ _ F) as Filtered.
  assert (I' : In r filtered) by (rewrite Filtered; now apply filter_In).
  destruct (in_split _ _ I') as (pre & post & Split).
  apply outcomes_In. exists pre, r, post. split; [exact Split|].
  apply Ind. exact I.
Qed.

Lemma can_pushed_again (H : host) (performer action target options : val)
    (new : list ability) :
  forall s : state,
    (forall r, In r new -> In r (abilities (self s))) ->
    position_independent H (st_heap s) performer target options
      (abilities (self s)) ->
    fst (can H performer action target options (pushed s new))
    = fst (can H performer action target options s).
Proof.
  induction new as [|r new IH]; intros s Sub Ind.
  - now rewrite pushed_nil.
  - change (r :: new) with ([r] ++ new). rewrite <- pushed_pushed.
    rewrite IH.
    + apply can_again; [apply Sub; now left|exact Ind].
    + intros x X. cbn [pushed self abilities]. apply in_or_app. left.
      apply Sub. now right.
    + intros a k k' X. cbn [pushed self abilities st_heap] in *.
      apply Ind. apply in_app_or in X.
      destruct X as [X|[<-|[]]]; [exact X|apply Sub; now left].
Qed.

(** X15.  Declaring again rules that are already declared (with a function
    for a condition, or none) changes the result of no query: it settles as
    before, with the same boolean or the same error, for conditions whose
    outcome does not depend on which fresh [{}] they are handed. *)
Theorem declaring_again_changes_nothing :
  forall (H : host) (model actions targets condition : val) (s s' : state)
         (performer action target options : val),
    isObject (st_heap s) condition = false ->
    allow model actions targets condition s = (Ok tt, s') ->
    (forall r,
        In r (declared model (arrify (st_heap s) actions)
                (arrify (st_heap s) targets) condition) ->
        In r (abilities (self s))) ->
    position_independent H (st_heap s) performer target options
      (abilities (self s)) ->
    fst (can H performer action target options s')
    = fst (can H performer action target options s).
Proof.
  intros H model actions targets condition s s' performer action target options
    Plain Run Sub Ind.
  rewrite (allow_pushes _ _ _ _ _ _ Plain Run).
  now apply can_pushed_again.
Qed.

(** On the test suite's program: [allow(User, 'manage', 'all')] a second
    time. *)
Lemma declaring_again_changes_nothing_witness :
  allow Scenario.User (VString "manage") (VString "all") VUndefined
    Scenario.with_number_and_plain_rule
  = (Ok tt,
     Scenario.after
       (allow Scenario.User (VString "manage") (VString "all") VUndefined)
       Scenario.with_number_and_plain_rule)
  /\ length (abilities
               (self (Scenario.after
                        (allow Scenario.User (VString "manage") (VString "all")
                           VUndefined)
                        Scenario.with_number_and_plain_rule)))
     = 3
  /\ fst (can Scenario.program Scenario.user Scenario.read Scenario.product
            VUndefined
            (Scenario.after
               (allow Scenario.User (VString "manage") (VString "all")
                  VUndefined)
               Scenario.with_number_and_plain_rule))
     = fst (can Scenario.program Scenario.user Scenario.read Scenario.product
              VUndefined Scenario.with_number_and_plain_rule).
Proof.
  split; [reflexivity|]. split; [reflexivity|].
  refine (declaring_again_changes_nothing Scenario.program Scenario.User
            (VString "manage") (VString "all") VUndefined
            Scenario.with_number_and_plain_rule _ Scenario.user Scenario.read
            Scenario.product VUndefined eq_refl eq_refl _ _).
  - intros r [<-|[]]. right. now left.
  - intros a k k' [<-|[<-|[]]]; reflexivity.
Defined.

(** ** Declaring, then asking *)

Lemma In_declared (model condition action target : val)
    (actions targets : list val) :
  In action actions -> In target targets ->
  In {| Ability.model := model; Ability.action := action;
        Ability.target := target; Ability.condition := condition |}
     (declared model actions targets condition).
Proof.
  intros A T. unfold declared. apply in_flat_map. exists action.
  split; [exact A|]. apply in_map_iff. now exists target.
Qed.

(** X16.  What [allow] declared without a condition, [can] grants: after
    [allow(model, actions, targets)], a query returns [true] when
    [instanceOf] places its performer under [model], its action is one of
    the actions (or ['manage'] is), and its target is one of the targets or
    [instanceOf] places it under one (or ['all'] is one), provided the query
    completes. *)
Theorem allowed_then_granted :
  forall (H : host) (model actions targets : val) (s s' : state)
         (declared_action declared_target : val)
         (performer action target options : val),
    allow model actions targets VUndefined s = (Ok tt, s') ->
    In declared_action (arrify (st_heap s) actions) ->
    In declared_target (arrify (st_heap s) targets) ->
    holds (instanceOf (self s') (st_heap s') performer model) ->
    declared_action = VString "manage"
    \/ strict_eq action declared_action = true ->
    declared_target = VString "all"
    \/ strict_eq target declared_target = true
    \/ holds (instanceOf (self s') (st_heap s') target declared_target) ->
    completes H s' performer action target options ->
    fst (can H performer action target options s') = Fulfilled (VBool true).
Proof.
  intros H model actions targets s s' declared_action declared_target
    performer action target options Run A T M MA MT Done.
  apply can_true_at. split; [exact Done|].
  assert (I : In {| Ability.model := model; Ability.action := declared_action;
                    Ability.target := declared_target;
                    Ability.condition := VUndefined |}
                 (abilities (self s'))).
  { rewrite (allow_pushes model actions targets VUndefined s s' eq_refl Run).
    cbn [pushed self abilities]. apply in_or_app. right.
    now apply In_declared. }
  destruct (in_split _ _ I) as (pre & post & Split).
  exists pre,
    {| Ability.model := model; Ability.action := declared_action;
       Ability.target := declared_target; Ability.condition := VUndefined |},
    post.
  split; [exact Split|].
  split; [exact M|]. split; [exact MT|]. split; [exact MA|].
  now exists (VBool true).
Qed.

(** On the test suite's program: [allow(User, ['read', 'create', 'destroy'],
    Product)], then [can(user, 'destroy', product)]. *)
Lemma allowed_then_granted_witness :
  allow Scenario.User (VRef 17) Scenario.Product VUndefined Scenario.fresh
  = (Ok tt,
     Scenario.after (allow Scenario.User (VRef 17) Scenario.Product VUndefined)
       Scenario.fresh)
  /\ In (VString "destroy") (arrify (st_heap Scenario.fresh) (VRef 17))
  /\ fst (can Scenario.program Scenario.user (VString "destroy")
            Scenario.product VUndefined
            (Scenario.after
               (allow Scenario.User (VRef 17) Scenario.Product VUndefined)
               Scenario.fresh))
     = Fulfilled (VBool true).
Proof.
  assert (A : In (VString "destroy")
                 (arrify (st_heap Scenario.fresh) (VRef 17)))
    by (right; right; now left).
  split; [reflexivity|]. split; [exact A|].
  refine (allowed_then_granted Scenario.program Scenario.User (VRef 17)
            Scenario.Product Scenario.fresh _ (VString "destroy")
            Scenario.Product Scenario.user (VString "destroy") Scenario.product
            VUndefined eq_refl A (or_introl eq_refl)
            (ex_intro _ (VBool true) (conj eq_refl eq_refl))
            (or_intror eq_refl)
            (or_intror (or_intror
                          (ex_intro _ (VBool true) (conj eq_refl eq_refl))))
            _).
  eexists. split; [reflexivity|].
  repeat (constructor; [now exists (VBool true)|]). constructor.
Defined.

(** X17.  A query calls the conditions of the rules that pass all three
    filters, and no other: it decides from one promise for each such rule, in
    the order of the registry, which for a rule with a condition is the
    promise of the call of that condition with the performer, the target and
    the options, and the state it leaves is the one left by these callbacks.
    The condition of a rule that fails a filter is not called, and when a
    filter throws none is: the query is rejected in the state in which it
    started. *)
Theorem conditions_invoked :
  forall (H : host) (performer action target options : val) (s : state),
    (forall filtered,
        filteredAbilities (self s) (st_heap s) performer action target
        = Ok filtered ->
        filtered
        = filter (passes_filters (self s) (st_heap s) performer action target)
            (abilities (self s))
        /\ exists promises : list (promise val),
             map_js (conditionCallback H performer target options)
               (filter (passes_filters (self s) (st_heap s) performer action
                          target)
                  (abilities (self s)))
               s
             = (promises, snd (can H performer action target options s))
             /\ fst (can H performer action target options s)
                = decision promises
             /\ length promises = length filtered
             /\ forall pre r post,
                  filtered = pre ++ r :: post ->
                  nth_error promises (length pre)
                  = Some
                      (if has_condition r
                       then promise_of H
                              (call H
                                 (if truthy options then st_heap s
                                  else st_heap s
                                         ++ repeat empty_object
                                              (S (invocations pre)))
                                 (Ability.condition r) (OnAbility r)
                                 [performer; target;
                                  if truthy options then options
                                  else VRef (length (st_heap s)
                                             + invocations pre)])
                       else (Fulfilled (VBool true), 0)))
    /\ (forall e,
           filteredAbilities (self s) (st_heap s) performer action target
           = Throw e ->
           can H performer action target options s = (Rejected e, s))
    /\ exists calls : list call_event,
         st_calls (snd (can H performer action target options s))
         = st_calls s ++ calls
         /\ (forall filtered,
                filteredAbilities (self s) (st_heap s) performer action target
                = Ok filtered ->
                map callee calls
                = map Ability.condition
                    (filter (fun r =>
                               passes_filters (self s) (st_heap s) performer
                                 action target r
                               && has_condition r)
                            (abilities (self s))))
         /\ (forall e,
                filteredAbilities (self s) (st_heap s) performer action target
                = Throw e ->
                calls = []).
Proof.
  intros H performer action target options s.
  split.
  { intros filtered F.
    pose proof (filteredAbilities_Ok _ _ _ _ _ _ F) as Filtered.
    split; [exact Filtered|]. rewrite <- Filtered.
    now apply can_promises. }
  split.
  { intros e F. unfold can. now rewrite F. }
  rewrite can_run.
  destruct (filteredAbilities (self s) (st_heap s) performer action target)
    as [filtered|e] eqn:F.
  - exists (events (st_heap s) performer target options 0 filtered).
    split; [reflexivity|]. split; [|discriminate].
    intros filtered' [= <-]. rewrite events_callee.
    rewrite (filteredAbilities_Ok _ _ _ _ _ _ F). now rewrite filter_filter.
  - exists []. cbn [snd]. rewrite app_nil_r.
    split; [reflexivity|]. split; [discriminate|reflexivity].
Qed.
